(** * Double-entry ledger: the accounting models, the posting view, the
      admin action and the admin's account form, embedded from
      [mysite/accounting].

    Amounts and balances are [Decimal] values with two decimal places; they
    are modelled exactly, as integers counting hundredths (so [10000] is
    [Decimal("100.00")]); a value with more than two decimal places is
    outside this type.  Sums are exact: [Decimal] arithmetic rounds only
    beyond 28 significant digits, which values within the fields' 18 digits
    do not reach.  The limit [max_digits=18] of both decimal fields is
    modelled, in validation and where a value is handed to the storage; so
    is [max_length=255] of the description, in validation.

    The database is a pair of tables keyed by primary key.  Functions that
    mutate [self] return the instance as it is after the call, also when the
    call raises: an exception undoes database work inside
    [transaction.atomic()], never an assignment to an attribute. *)

From stdpp Require Import base option list gmap strings relations.
From Stdlib Require Import ZArith Lia.

Local Open Scope Z_scope.

(** ** Exceptions *)

(** The texts raised with [ValidationError] in [models.py], named after
    the failure they report. *)
Inductive Message :=
  | MissingAccount          (* "Нужно выбрать оба счёта: дебет и кредит." *)
  | SameAccount             (* "Дебетовый и кредитовый счёт не могут совпадать." *)
  | NonPositiveAmount       (* "Сумма должна быть положительной." *)
  | AlreadyAnnulled         (* "Транзакция уже аннулирована." *)
  | CannotAnnulAReversal    (* "Нельзя аннулировать сторно-транзакцию." *)
  | FieldNull (field : string)        (* field validation: null not allowed *)
  | FieldDoesNotExist (field : string) (* field validation: no such related row *)
  | FieldInvalid (field : string)     (* field validation: a validator of the
                                         field (max_digits, max_length) refuses
                                         the value *)
  | ConstraintViolated (name : string) (* validation of a check constraint *).

Inductive Exception :=
  | ValidationError (messages : list Message)
  | DoesNotExist
  | ValueError
  | TypeError
  | DatabaseError
  | IntegrityError
  | AttributeError
  | InvalidOperation   (* decimal.InvalidOperation: a value does not fit
                          its decimal column *).

Definition Result (A : Type) : Type := Exception + A.

(** A value in hundredths that a [DecimalField(max_digits=18,
    decimal_places=2)] can hold: at most sixteen digits before the point. *)
Definition fits_decimal (z : Z) : bool := bool_decide (Z.abs z < 10 ^ 18).

#[global] Instance Message_eq_dec : EqDecision Message := ltac:(solve_decision).
#[global] Instance Exception_eq_dec : EqDecision Exception := ltac:(solve_decision).

(** ** Accounts *)

Module Account.

Inductive AccountType := ASSET | LIABILITY | BOTH.

#[global] Instance AccountType_eq_dec : EqDecision AccountType :=
  ltac:(solve_decision).

(** The stored value of each choice. *)
Definition value (t : AccountType) : string :=
  match t with ASSET => "A" | LIABILITY => "P" | BOTH => "AP" end.

Record t := mk {
  pk : nat;
  number : string;
  name : string;
  type : AccountType;
  group : nat;
  balance : Z
}.

Definition set_balance (b : Z) (self : t) : t :=
  mk (pk self) (number self) (name self) (type self) (group self) b.

End Account.

Abbreviation ASSET := Account.ASSET.
Abbreviation LIABILITY := Account.LIABILITY.
Abbreviation BOTH := Account.BOTH.

(** ** Transactions *)

Module Transaction.

(** The columns that [update_fields] can name. *)
Inductive Field :=
  | debit_account | credit_account | amount_field | description_field
  | is_annulled_field | reversal_of | is_applied_field.

#[global] Instance Field_eq_dec : EqDecision Field := ltac:(solve_decision).

(** A description is free text, or the text generated by [annul]:
    f"Сторно транзакции #{self.pk}". *)
Inductive Description :=
  | Text (s : string)
  | Storno (original : option nat).

(** [created_at] (a timestamp with a default) carries no logic and is
    left out.  An instance that has a primary key stands for one that was
    loaded from the table or saved before; one built in memory has none
    until its first save. *)
Record t := mk {
  pk : option nat;
  debit_account_id : option nat;
  credit_account_id : option nat;
  amount : option Z;
  description : Description;
  is_annulled : bool;
  reversal_of_id : option nat;
  is_applied : bool
}.

(** [max_length=255] of the description.  The generated text has nineteen
    characters and the digits of a primary key, a database integer of at
    most nineteen digits: it is always within the limit.  A character of a
    free text is one element of the string. *)
Definition description_fits (d : Description) : bool :=
  match d with
  | Text s => bool_decide (String.length s ≤ 255)%nat
  | Storno _ => true
  end.

Definition set_pk (v : option nat) (self : t) : t :=
  mk v (debit_account_id self) (credit_account_id self) (amount self)
     (description self) (is_annulled self) (reversal_of_id self) (is_applied self).

Definition set_is_annulled (v : bool) (self : t) : t :=
  mk (pk self) (debit_account_id self) (credit_account_id self) (amount self)
     (description self) v (reversal_of_id self) (is_applied self).

Definition set_is_applied (v : bool) (self : t) : t :=
  mk (pk self) (debit_account_id self) (credit_account_id self) (amount self)
     (description self) (is_annulled self) (reversal_of_id self) v.

(** [UPDATE ... SET f = self.f]: the column [f] of [row] takes the value
    the instance [self] has for it. *)
Definition write_field (self : t) (row : t) (f : Field) : t :=
  match f with
  | debit_account =>
      mk (pk row) (debit_account_id self) (credit_account_id row) (amount row)
         (description row) (is_annulled row) (reversal_of_id row) (is_applied row)
  | credit_account =>
      mk (pk row) (debit_account_id row) (credit_account_id self) (amount row)
         (description row) (is_annulled row) (reversal_of_id row) (is_applied row)
  | amount_field =>
      mk (pk row) (debit_account_id row) (credit_account_id row) (amount self)
         (description row) (is_annulled row) (reversal_of_id row) (is_applied row)
  | description_field =>
      mk (pk row) (debit_account_id row) (credit_account_id row) (amount row)
         (description self) (is_annulled row) (reversal_of_id row) (is_applied row)
  | is_annulled_field => set_is_annulled (is_annulled self) row
  | reversal_of =>
      mk (pk row) (debit_account_id row) (credit_account_id row) (amount row)
         (description row) (is_annulled row) (reversal_of_id self) (is_applied row)
  | is_applied_field => set_is_applied (is_applied self) row
  end.

End Transaction.

(** ** The database *)

(** [locked] is the history of row locks taken with [select_for_update],
    oldest first; it is a record of events, so a rollback does not erase
    it. *)
Record DB := mkDB {
  accounts : gmap nat Account.t;
  transactions : gmap nat Transaction.t;
  next_pk : nat;
  locked : list nat
}.

Definition set_accounts (a : gmap nat Account.t) (db : DB) : DB :=
  mkDB a (transactions db) (next_pk db) (locked db).

Definition set_transactions (t : gmap nat Transaction.t) (n : nat) (db : DB) : DB :=
  mkDB (accounts db) t n (locked db).

Definition add_lock (k : nat) (db : DB) : DB :=
  mkDB (accounts db) (transactions db) (next_pk db) (locked db ++ [k]).

(** Leaving [transaction.atomic()] through an exception: the tables are
    those of [before]. *)
Definition rollback (before after : DB) : DB :=
  mkDB (accounts before) (transactions before) (next_pk before) (locked after).

(** ** Methods: computations over an instance and the database *)

Definition Eff (S A : Type) : Type := S → Result A * S.

#[global] Instance Eff_ret S : MRet (Eff S) := λ A x s, (inr x, s).

#[global] Instance Eff_bind S : MBind (Eff S) := λ A B f m s,
  match m s with
  | (inl e, s') => (inl e, s')
  | (inr x, s') => f x s'
  end.

Definition raise {S A} (e : Exception) : Eff S A := λ s, (inl e, s).
Definition gets {S A} (f : S → A) : Eff S A := λ s, (inr (f s), s).
Definition modify {S} (f : S → S) : Eff S unit := λ s, (inr tt, f s).

(** A method of a [Self] instance. *)
Definition Method (Self A : Type) : Type := Eff (Self * DB) A.

Definition get_self {Self} : Method Self Self := gets fst.
Definition get_db {Self} : Method Self DB := gets snd.
(** [self.attr = v] *)
Definition set_self {Self} (f : Self → Self) : Method Self unit :=
  modify (λ s, (f s.1, s.2)).
Definition set_db {Self} (f : DB → DB) : Method Self unit :=
  modify (λ s, (s.1, f s.2)).

(** [obj.m(...)] called from a method of another instance; the value is
    the result of [m] together with [obj] as the call leaves it. *)
Definition invoke {Self Other A} (obj : Other) (m : Method Other A)
  : Method Self (A * Other) := λ s,
  match m (obj, s.2) with
  | (inl e, s') => (inl e, (s.1, s'.2))
  | (inr x, s') => (inr (x, s'.1), (s.1, s'.2))
  end.

(** [with transaction.atomic(): body] *)
Definition atomic {Self A} (body : Method Self A) : Method Self A := λ s,
  match body s with
  | (inl e, s') => (inl e, (s'.1, rollback s.2 s'.2))
  | (inr x, s') => (inr x, s')
  end.

(** ** Account methods (models.py, lines 39-86) *)

(** [Account.objects.select_for_update().get(pk=k)]: the row is locked and
    returned; [get] raises [DoesNotExist] when no row has that key (always
    so for [pk=None]). *)
Definition select_for_update_get {Self} (k : option nat) : Method Self Account.t :=
  db ← get_db;
  match k with
  | None => raise DoesNotExist
  | Some k =>
      match accounts db !! k with
      | None => raise DoesNotExist
      | Some row =>
          set_db (add_lock k);;
          mret (Account.mk k (Account.number row) (Account.name row)
                  (Account.type row) (Account.group row) (Account.balance row))
      end
  end.

(** [self.save(update_fields=["balance"])]: an UPDATE of the balance column
    of the row of [self].  The value is first prepared for the column: a
    balance that needs more than 18 digits is refused there
    ([decimal.InvalidOperation]; a [DataError] of the storage on PostgreSQL)
    and nothing is written.  The framework raises [DatabaseError] when the
    UPDATE matches no row. *)
Definition Account_save_balance : Method Account.t unit :=
  self ← get_self;
  db ← get_db;
  if negb (fits_decimal (Account.balance self)) then raise InvalidOperation
  else
    match accounts db !! Account.pk self with
    | None => raise DatabaseError
    | Some row =>
        set_db (set_accounts
                  (<[Account.pk self := Account.set_balance (Account.balance self) row]>
                     (accounts db)))
    end.

(** [self.save()]: every column of the row is written from the instance
    (an UPDATE, or an INSERT when there is no such row); the balance is
    prepared for its column as above. *)
Definition Account_save : Method Account.t unit :=
  self ← get_self;
  db ← get_db;
  if negb (fits_decimal (Account.balance self)) then raise InvalidOperation
  else set_db (set_accounts (<[Account.pk self := self]> (accounts db))).

Definition apply_debit (amount : Z) : Method Account.t unit :=
  self ← get_self;
  (if bool_decide (Account.type self ∈ [ASSET; BOTH])
   then set_self (Account.set_balance (Account.balance self + amount))
   else (* LIABILITY *)
        set_self (Account.set_balance (Account.balance self - amount)));;
  Account_save_balance.

Definition apply_credit (amount : Z) : Method Account.t unit :=
  self ← get_self;
  (if bool_decide (Account.type self ∈ [ASSET; BOTH])
   then set_self (Account.set_balance (Account.balance self - amount))
   else (* LIABILITY *)
        set_self (Account.set_balance (Account.balance self + amount)));;
  Account_save_balance.

(** *** Account numbers (lines 45-50)

    [random.choices("0123456789", k=10)] draws ten digits; the generator is
    a stream of digits, [rnd i] being the [i]-th digit it hands out.  The
    loop [while True] has no counter in the source: [fuel] only bounds how
    many rounds of it the model runs, and [None] means the loop is still
    running after that many rounds. *)

Definition digit_char (d : nat) : string :=
  match (d `mod` 10)%nat with
  | 0%nat => "0" | 1%nat => "1" | 2%nat => "2" | 3%nat => "3" | 4%nat => "4"
  | 5%nat => "5" | 6%nat => "6" | 7%nat => "7" | 8%nat => "8" | _ => "9"
  end.

(** The number drawn in round [i]: digits [10*i .. 10*i+9] of the stream. *)
Definition draw (rnd : nat → nat) (i : nat) : string :=
  foldr (λ j s, digit_char (rnd (10 * i + j)%nat) +:+ s) "" (seq 0 10).

(** [Account.objects.filter(number=num).exists()] *)
Definition number_exists (num : string) (db : DB) : bool :=
  bool_decide (∃ k row, accounts db !! k = Some row ∧ Account.number row = num).

Fixpoint generate_from (fuel : nat) (rnd : nat → nat) (i : nat) (db : DB)
  : option string :=
  match fuel with
  | O => None
  | S fuel' =>
      let num := draw rnd i in
      if negb (number_exists num db) then Some num
      else generate_from fuel' rnd (S i) db
  end.

Definition _generate_account_number (fuel : nat) (rnd : nat → nat) (db : DB)
  : option string :=
  generate_from fuel rnd 0 db.

(** ** Transaction methods (models.py, lines 89-177) *)

(** [Transaction.clean] (lines 124-130). *)
Definition clean : Method Transaction.t unit :=
  self ← get_self;
  (if bool_decide (Transaction.debit_account_id self = None
                   ∨ Transaction.credit_account_id self = None)
   then raise (ValidationError [MissingAccount]) else mret tt);;
  (if bool_decide (Transaction.debit_account_id self = Transaction.credit_account_id self)
   then raise (ValidationError [SameAccount]) else mret tt);;
  (if match Transaction.amount self with
      | None => true
      | Some a => bool_decide (a ≤ 0)
      end
   then raise (ValidationError [NonPositiveAmount]) else mret tt).

(** The framework's validation of one foreign key: a blank value is
    accepted ([null=True, blank=True]), any other must name a row. *)
Definition check_reference {V} (field : string) (k : option nat) (table : gmap nat V)
  : list Message :=
  match k with
  | None => []
  | Some k => if table !! k is Some _ then [] else [FieldDoesNotExist field]
  end.

(** The framework's validation of the amount (line 102): it may not be
    null, and it must fit [max_digits=18, decimal_places=2]. *)
Definition check_amount (a : option Z) : list Message :=
  match a with
  | None => [FieldNull "amount"]
  | Some a => if fits_decimal a then [] else [FieldInvalid "amount"]
  end.

(** The framework's [clean_fields] for the fields declared at lines 96-111:
    the messages it collects, in the order of the fields. *)
Definition clean_fields (self : Transaction.t) (db : DB) : list Message :=
  check_reference "debit_account" (Transaction.debit_account_id self) (accounts db)
  ++ check_reference "credit_account" (Transaction.credit_account_id self) (accounts db)
  ++ check_amount (Transaction.amount self)
  ++ (if Transaction.description_fits (Transaction.description self)
      then [] else [FieldInvalid "description"])
  ++ check_reference "reversal_of" (Transaction.reversal_of_id self) (transactions db).

(** The framework's validation of the constraint [amount_positive] (line
    118).  It is skipped when the amount failed its own validation. *)
Definition validate_constraints (self : Transaction.t) : list Message :=
  match Transaction.amount self with
  | Some a =>
      if fits_decimal a && bool_decide (a ≤ 0)
      then [ConstraintViolated "amount_positive"] else []
  | None => []
  end.

(** The framework's [full_clean]: field validation, then [clean] (which runs
    also when a field failed), then the constraints; one [ValidationError]
    carries everything that was reported. *)
Definition full_clean : Method Transaction.t unit :=
  self ← get_self;
  db ← get_db;
  let reported :=
    clean_fields self db
    ++ match clean (self, db) with
       | (inl (ValidationError ms), _) => ms
       | _ => []
       end
    ++ validate_constraints self in
  if reported is [] then mret tt else raise (ValidationError reported).

(** The amount of [self] can be handed to its column: as for a balance, a
    value that needs more than 18 digits is refused when it is prepared. *)
Definition amount_prepared (self : Transaction.t) : bool :=
  match Transaction.amount self with
  | Some a => fits_decimal a
  | None => true
  end.

(** What the storage checks on a row it is asked to write: [amount] is not
    null, the constraint [amount_positive] (line 118), and the foreign
    keys. *)
Definition row_accepted (row : Transaction.t) (db : DB) : bool :=
  match Transaction.amount row with
  | None => false
  | Some a => bool_decide (0 < a)
  end
  && bool_decide (check_reference "debit_account" (Transaction.debit_account_id row) (accounts db) = [])
  && bool_decide (check_reference "credit_account" (Transaction.credit_account_id row) (accounts db) = [])
  && bool_decide (check_reference "reversal_of" (Transaction.reversal_of_id row) (transactions db) = []).

(** INSERT of [self] under key [k]. *)
Definition insert_row (k : nat) : Method Transaction.t unit :=
  self ← get_self;
  db ← get_db;
  if negb (amount_prepared self) then raise InvalidOperation
  else if transactions db !! k is Some _ then raise IntegrityError
  else if negb (row_accepted self db) then raise IntegrityError
  else
    set_self (Transaction.set_pk (Some k));;
    set_db (set_transactions (<[k := Transaction.set_pk (Some k) self]> (transactions db))
                             (next_pk db `max` S k)).

(** The framework's [Model.save], reached as [super().save(...)]:
    - an empty [update_fields] saves nothing;
    - [update_fields] without a primary key is a [ValueError];
    - without a primary key the row is inserted under the next key;
    - with [update_fields] the named columns of the row are updated, and it
      is a [DatabaseError] when there is no such row;
    - otherwise every column is updated, or the row is inserted under its
      key when there is none;
    - an amount that is written is prepared for its column first. *)
Definition Model_save (update_fields : option (list Transaction.Field))
  : Method Transaction.t unit :=
  self ← get_self;
  db ← get_db;
  match update_fields, Transaction.pk self with
  | Some [], _ => mret tt
  | Some _, None => raise ValueError
  | None, None => insert_row (next_pk db)
  | Some fields, Some k =>
      if bool_decide (Transaction.amount_field ∈ fields) && negb (amount_prepared self)
      then raise InvalidOperation
      else
        match transactions db !! k with
        | None => raise DatabaseError
        | Some row =>
            let row' := foldl (Transaction.write_field self) row fields in
            if negb (row_accepted row' db) then raise IntegrityError
            else set_db (set_transactions (<[k := row']> (transactions db)) (next_pk db))
        end
  | None, Some k =>
      if negb (amount_prepared self) then raise InvalidOperation
      else
        match transactions db !! k with
        | None => insert_row k
        | Some _ =>
            if negb (row_accepted self db) then raise IntegrityError
            else set_db (set_transactions (<[k := self]> (transactions db)) (next_pk db))
        end
  end.

(** [Transaction.apply_balances] (lines 132-143). *)
Definition apply_balances : Method Transaction.t unit :=
  self ← get_self;
  if Transaction.is_applied self then mret tt
  else
    atomic (
      debit ← select_for_update_get (Transaction.debit_account_id self);
      credit ← select_for_update_get (Transaction.credit_account_id self);
      (* [balance += None] is a TypeError *)
      amount ← (if Transaction.amount self is Some a then mret a else raise TypeError);
      invoke debit (apply_debit amount);;
      invoke credit (apply_credit amount);;
      set_self (Transaction.set_is_applied true);;
      Model_save (Some [Transaction.is_applied_field])  (* только флаг *)
    ).

(** [Transaction.save] (lines 145-152). *)
Definition save (update_fields : option (list Transaction.Field))
  : Method Transaction.t unit :=
  full_clean;;
  self ← get_self;
  let creating := bool_decide (Transaction.pk self = None) in
  Model_save update_fields;;
  self ← get_self;
  if creating && bool_decide (Transaction.reversal_of_id self = None)
  then apply_balances
  else mret tt.

(** [Transaction.objects.create(...)]: a new instance is built from
    the keyword arguments (the other fields take their defaults) and
    saved. *)
Definition Transaction_objects_create {Self}
    (debit_account credit_account : option nat) (amount : option Z)
    (description : Transaction.Description) (reversal_of : option nat)
  : Method Self Transaction.t :=
  let obj := Transaction.mk None debit_account credit_account amount description
                            false reversal_of false in
  r ← invoke obj (save None);
  mret r.2.

(** [Transaction.annul] (lines 155-177). *)
Definition annul : Method Transaction.t Transaction.t :=
  self ← get_self;
  (if Transaction.is_annulled self
   then raise (ValidationError [AlreadyAnnulled]) else mret tt);;
  (if bool_decide (Transaction.reversal_of_id self ≠ None)
   then raise (ValidationError [CannotAnnulAReversal]) else mret tt);;
  atomic (
    (* помечаем исходную *)
    set_self (Transaction.set_is_annulled true);;
    save (Some [Transaction.is_annulled_field]);;
    (* создаём обратную *)
    self ← get_self;
    reversal ← Transaction_objects_create
                 (Transaction.credit_account_id self)
                 (Transaction.debit_account_id self)
                 (Transaction.amount self)
                 (Transaction.Storno (Transaction.pk self))
                 (Transaction.pk self);
    mret reversal
  ).

(** ** The form and the view (forms.py, views.py) *)

(** [obj.m(...)] called from a function. *)
Definition call {Obj A} (obj : Obj) (m : Method Obj A) : Eff DB (A * Obj) := λ db,
  match m (obj, db) with
  | (inl e, s') => (inl e, s'.2)
  | (inr x, s') => (inr (x, s'.1), s'.2)
  end.

Inductive Request :=
  | GET
  | POST (debit_account credit_account : option nat) (amount : option Z)
         (description : string).

Inductive Response :=
  | render_transaction_form
  | redirect_transaction_list.

(** The data a [TransactionForm] is bound to ([None] for a value that was
    not posted); the description is the text as its field hands it on, with
    the surrounding white space stripped. *)
Record TransactionForm := mkForm {
  posted_debit : option nat;
  posted_credit : option nat;
  posted_amount : option Z;
  posted_description : string
}.

(** A posted account key is looked up: the related instance, or nothing. *)
Definition cleaned_account (k : option nat) (db : DB) : option Account.t :=
  k ≫= λ k, (λ row, Account.mk k (Account.number row) (Account.name row)
                      (Account.type row) (Account.group row) (Account.balance row))
            <$> accounts db !! k.

(** What the amount field makes of the posted value: nothing when it is
    missing (the field is required) or does not fit [max_digits=18,
    decimal_places=2]. *)
Definition cleaned_amount (form : TransactionForm) : option Z :=
  match posted_amount form with
  | Some a => if fits_decimal a then Some a else None
  | None => None
  end.

(** What the form's fields report themselves: a posted account that does
    not exist, an amount that is missing or does not fit, a description of
    more than 255 characters. *)
Definition form_field_errors (form : TransactionForm) (db : DB) : bool :=
  bool_decide (is_Some (posted_debit form) ∧ cleaned_account (posted_debit form) db = None)
  || bool_decide (is_Some (posted_credit form) ∧ cleaned_account (posted_credit form) db = None)
  || bool_decide (cleaned_amount form = None)
  || negb (bool_decide (String.length (posted_description form) ≤ 255)%nat).

(** [TransactionForm.clean] (forms.py, lines 10-23), over what the fields
    cleaned; [true] when it raises. *)
Definition TransactionForm_clean (form : TransactionForm) (db : DB) : bool :=
  let debit := cleaned_account (posted_debit form) db in
  let credit := cleaned_account (posted_credit form) db in
  let amount := cleaned_amount form in
  if bool_decide (debit = None ∨ credit = None) then true
  else if bool_decide (Account.pk <$> debit = Account.pk <$> credit) then true
  else match amount with
       | None => true
       | Some a => bool_decide (a = 0) || bool_decide (a ≤ 0)
       end.

(** [form.save(commit=False)]: the instance built from the form. *)
Definition form_instance (form : TransactionForm) : Transaction.t :=
  Transaction.mk None (posted_debit form) (posted_credit form) (posted_amount form)
                 (Transaction.Text (posted_description form)) false None false.

(** [form.is_valid()]: the fields, the form's [clean], and the validation
    of the instance. *)
Definition is_valid (form : TransactionForm) (db : DB) : bool :=
  negb (form_field_errors form db)
  && negb (TransactionForm_clean form db)
  && bool_decide ((full_clean (form_instance form, db)).1 = inr tt).

(** Attribute access on an [Account] instance, for the names of the fields
    declared in models.py, lines 52-63 (with [id], [pk] and [group_id]) and
    for the name the view reads, [account_type].  [Account] (lines 39-86)
    has no field, property or method of that name and defines no
    [__getattr__]: reading it is an [AttributeError]. *)
Inductive Attribute :=
  | attr_id | attr_pk | attr_number | attr_name | attr_type
  | attr_group | attr_group_id | attr_balance | attr_account_type.

Inductive PyValue :=
  | PyInt (n : nat)
  | PyStr (s : string)
  | PyDecimal (d : Z)
  | PyBalanceGroup (pk : nat)   (* the related [BalanceGroup] instance *).

#[global] Instance PyValue_eq_dec : EqDecision PyValue := ltac:(solve_decision).

Definition Account_getattr (self : Account.t) (attr : Attribute) : Eff DB PyValue :=
  match attr with
  | attr_id | attr_pk => mret (PyInt (Account.pk self))
  | attr_number => mret (PyStr (Account.number self))
  | attr_name => mret (PyStr (Account.name self))
  | attr_type => mret (PyStr (Account.value (Account.type self)))
  | attr_group => mret (PyBalanceGroup (Account.group self))
  | attr_group_id => mret (PyInt (Account.group self))
  | attr_balance => mret (PyDecimal (Account.balance self))
  | attr_account_type => raise AttributeError
  end.

(** [obj.account_type == s] *)
Definition account_type_is (obj : Account.t) (s : string) : Eff DB bool :=
  v ← Account_getattr obj attr_account_type;
  mret (bool_decide (v = PyStr s)).

(** [a and b]: [b] is evaluated only when [a] is true. *)
Definition py_and (a b : Eff DB bool) : Eff DB bool :=
  x ← a; if x : bool then b else mret false.

(** [transaction_create] (views.py, lines 18-51). *)
Definition transaction_create (request : Request) : Eff DB Response :=
  match request with
  | POST d c a text =>
      let form := mkForm d c a text in
      db ← gets (λ db, db);
      if is_valid form db then
        let transaction := form_instance form in
        match cleaned_account (Transaction.debit_account_id transaction) db,
              cleaned_account (Transaction.credit_account_id transaction) db,
              Transaction.amount transaction with
        | Some debit, Some credit, Some amount =>
            (* Логика двойной записи *)
            b1 ← py_and (account_type_is debit "asset") (account_type_is credit "asset");
            '(debit, credit) ←
              (if b1 : bool then
                 mret (Account.set_balance (Account.balance debit + amount) debit,
                       Account.set_balance (Account.balance credit - amount) credit)
               else
                 b2 ← py_and (account_type_is debit "liability")
                             (account_type_is credit "liability");
                 if b2 : bool then
                   mret (Account.set_balance (Account.balance debit - amount) debit,
                         Account.set_balance (Account.balance credit + amount) credit)
                 else
                   b3 ← py_and (account_type_is debit "asset")
                               (account_type_is credit "liability");
                   if b3 : bool then
                     mret (Account.set_balance (Account.balance debit + amount) debit,
                           Account.set_balance (Account.balance credit + amount) credit)
                   else
                     b4 ← py_and (account_type_is debit "liability")
                                 (account_type_is credit "asset");
                     if b4 : bool then
                       mret (Account.set_balance (Account.balance debit - amount) debit,
                             Account.set_balance (Account.balance credit - amount) credit)
                     else mret (debit, credit));
            call debit Account_save;;
            call credit Account_save;;
            call transaction (save None);;
            mret redirect_transaction_list
        | _, _, _ =>
            (* [None.account_type]; a valid form has both accounts and an
               amount, and [debit.account_type] is evaluated before the
               amount is used *)
            raise AttributeError
        end
      else mret render_transaction_form
  | GET => mret render_transaction_form
  end.

(** ** The admin action (admin.py, lines 38-48) *)

Inductive AdminMessage :=
  | could_not_annul (pk : option nat) (e : Exception)   (* level ERROR *)
  | annulled_count (count : nat)                        (* level SUCCESS *).

(** The body of [for obj in queryset], over the instances the queryset
    produced; the state carried along is [count] and the messages sent. *)
Fixpoint make_annulled_loop (objs : list Transaction.t) (count : nat)
    (sent : list AdminMessage) (db : DB) : nat * list AdminMessage * DB :=
  match objs with
  | [] => (count, sent, db)
  | obj :: rest =>
      match annul (obj, db) with
      | (inr _, s') => make_annulled_loop rest (S count) sent s'.2
      | (inl e, s') =>
          make_annulled_loop rest count
            (sent ++ [could_not_annul (Transaction.pk obj) e]) s'.2
      end
  end.

(** [make_annulled(self, request, queryset)]: the queryset is evaluated
    when the loop starts; [queryset] lists the keys it selects. *)
Definition make_annulled (queryset : list nat) (db : DB) : list AdminMessage * DB :=
  let objs := omap (λ k, transactions db !! k) queryset in
  let '(count, sent, db') := make_annulled_loop objs 0 [] db in
  (if bool_decide (count ≠ 0%nat) then sent ++ [annulled_count count] else sent, db').

(** ** The admin's form for accounts (admin.py, lines 21-25) *)



(** ** The rule engine of the specification *)

Inductive Leg := Debit | Credit.

(** The table of the specification's Balance Rule Engine, written from its
    words; [apply_debit] and [apply_credit] are compared with it below. *)
Definition computeDelta (ty : Account.AccountType) (leg : Leg) (amount : Z) : Z :=
  match ty, leg with
  | (ASSET | BOTH), Debit => amount
  | (ASSET | BOTH), Credit => - amount
  | LIABILITY, Debit => - amount
  | LIABILITY, Credit => amount
  end.

(** The balance stored for account [k] (zero when there is no such row). *)
Definition balance_of (db : DB) (k : nat) : Z :=
  default 0 (Account.balance <$> accounts db !! k).

(** What an operation posted to account [k]. *)
Definition posted_delta (k : nat) (before after : DB) : Z :=
  balance_of after k - balance_of before k.

(** Accounts on the same side of the balance sheet. *)
Definition same_side (a b : Account.t) : Prop :=
  Account.type a ∈ [ASSET; BOTH] ↔ Account.type b ∈ [ASSET; BOTH].

(** ** Notions used to state the properties *)

(** The account table once [amt] is posted from account [d] (stored as
    [da]) to account [c] (stored as [ca]): the debit leg is written first,
    the credit leg is computed from the instance read before it. *)
Definition post_accounts (d c : nat) (amt : Z) (da ca : Account.t)
    (table : gmap nat Account.t) : gmap nat Account.t :=
  let da' := Account.set_balance
               (Account.balance da + computeDelta (Account.type da) Debit amt) da in
  <[c := Account.set_balance
           (Account.balance ca + computeDelta (Account.type ca) Credit amt)
           (if decide (d = c) then da' else ca)]>
    (<[d := da']> table).

(** The account table [after] is [before], or [before] with the two legs
    of [self] posted: its amount, from its debit account to its credit
    account. *)
Definition posted_by (self : Transaction.t) (before after : gmap nat Account.t) : Prop :=
  after = before
  ∨ ∃ d c amt da ca,
      Transaction.debit_account_id self = Some d
      ∧ Transaction.credit_account_id self = Some c
      ∧ Transaction.amount self = Some amt
      ∧ before !! d = Some da ∧ before !! c = Some ca
      ∧ after = post_accounts d c amt da ca before.

(** Both accounts present and distinct, amount strictly positive. *)
Definition posting_valid (row : Transaction.t) : Prop :=
  ∃ d c a,
    Transaction.debit_account_id row = Some d ∧
    Transaction.credit_account_id row = Some c ∧
    d ≠ c ∧ Transaction.amount row = Some a ∧ 0 < a.

Definition rows_valid (db : DB) : Prop :=
  ∀ k row, transactions db !! k = Some row → posting_valid row.

(** The constraint [amount_positive] holds of every stored row. *)
Definition amounts_positive (db : DB) : Prop :=
  ∀ k row, transactions db !! k = Some row →
    ∃ a, Transaction.amount row = Some a ∧ 0 < a.

(** A save of the whole record, or of columns other than the two accounts
    and the amount (the flag-only updates). *)
Definition whole_or_flags (update_fields : option (list Transaction.Field)) : Prop :=
  match update_fields with
  | None => True
  | Some fields =>
      ∀ f, f ∈ fields →
        f ≠ Transaction.debit_account ∧ f ≠ Transaction.credit_account ∧
        f ≠ Transaction.amount_field
  end.

(** The first precondition of [clean] that a record fails, in the order
    the source checks them. *)
Definition first_failure (d c : option nat) (a : option Z) : option Message :=
  if bool_decide (d = None ∨ c = None) then Some MissingAccount
  else if bool_decide (d = c) then Some SameAccount
  else match a with
       | None => Some NonPositiveAmount
       | Some v => if bool_decide (v ≤ 0) then Some NonPositiveAmount else None
       end.

(** Round [i] of the account-number loop draws a number already in use. *)
Definition collides (rnd : nat → nat) (db : DB) (i : nat) : Prop :=
  number_exists (draw rnd i) db = true.

(** ** Notions used to state further properties *)

(** An account's balance counted on its side of the balance sheet: as it
    stands for an Asset or Both account, negated for a Liability account. *)
Definition signed_balance (a : Account.t) : Z :=
  if bool_decide (Account.type a ∈ [ASSET; BOTH])
  then Account.balance a else - Account.balance a.

(** Assets minus liabilities, over a whole account table. *)
Definition net_position (table : gmap nat Account.t) : Z :=
  map_fold (λ _ a total, total + signed_balance a) 0 table.

(** Every row stored in [before] is still stored in [after] under the same
    key, with the same accounts, amount, description and [reversal_of]; a
    flag that was true is still true. *)
Definition history_kept (before after : DB) : Prop :=
  ∀ k row, transactions before !! k = Some row →
    ∃ row', transactions after !! k = Some row'
      ∧ Transaction.debit_account_id row' = Transaction.debit_account_id row
      ∧ Transaction.credit_account_id row' = Transaction.credit_account_id row
      ∧ Transaction.amount row' = Transaction.amount row
      ∧ Transaction.description row' = Transaction.description row
      ∧ Transaction.reversal_of_id row' = Transaction.reversal_of_id row
      ∧ (Transaction.is_applied row = true → Transaction.is_applied row' = true)
      ∧ (Transaction.is_annulled row = true → Transaction.is_annulled row' = true).

(** The same account but for its balance. *)
Definition same_but_balance (a a' : Account.t) : Prop :=
  Account.pk a' = Account.pk a ∧ Account.number a' = Account.number a
  ∧ Account.name a' = Account.name a ∧ Account.type a' = Account.type a
  ∧ Account.group a' = Account.group a.

(** [after] holds the accounts of [before], under the same keys, changed
    in nothing but their balances. *)
Definition accounts_kept (before after : gmap nat Account.t) : Prop :=
  ∀ k, match before !! k, after !! k with
       | Some a, Some a' => same_but_balance a a'
       | None, None => True
       | _, _ => False
       end.

(** The string consists of decimal digits only. *)
Definition all_digits (s : string) : bool :=
  forallb (λ ch, bool_decide (ch ∈ String.list_ascii_of_string "0123456789"))
          (String.list_ascii_of_string s).

(** The message of the admin action reports a failure. *)
Definition is_failure (m : AdminMessage) : bool :=
  match m with
  | could_not_annul _ _ => true
  | annulled_count _ => false
  end.

(** ** A small ledger to run the scenarios on *)

Module Scenario.

Definition A : Account.t := Account.mk 1 "0000000001" "A" ASSET 1 0.
Definition B : Account.t := Account.mk 2 "0000000002" "B" LIABILITY 1 0.

Definition ledger : DB := mkDB (<[2%nat := B]> {[1%nat := A]}) ∅ 1 [].

(** [Transaction.objects.create(debit_account=A, credit_account=B,
    amount=Decimal("100.00"))] *)
Definition created : Result Transaction.t * (unit * DB) :=
  Transaction_objects_create (Some 1%nat) (Some 2%nat) (Some 10000)
                             (Transaction.Text "") None (tt, ledger).

Definition original : Transaction.t :=
  Transaction.mk (Some 1%nat) (Some 1%nat) (Some 2%nat) (Some 10000)
                 (Transaction.Text "") false None true.

(** [original.annul()] on the ledger that [created] left. *)
Definition annulled : Result Transaction.t * (Transaction.t * DB) :=
  annul (original, created.2.2).

(** A row persisted but not applied yet, and the same with the two
    accounts in the opposite roles. *)
Definition pending : Transaction.t :=
  Transaction.mk (Some 1%nat) (Some 1%nat) (Some 2%nat) (Some 10000)
                 (Transaction.Text "") false None false.
Definition pending_swapped : Transaction.t :=
  Transaction.mk (Some 1%nat) (Some 2%nat) (Some 1%nat) (Some 10000)
                 (Transaction.Text "") false None false.

Definition ledger_pending : DB :=
  mkDB (accounts ledger) {[1%nat := pending]} 2 [].
Definition ledger_pending_swapped : DB :=
  mkDB (accounts ledger) {[1%nat := pending_swapped]} 2 [].

(** The stored row as an instance on which both legs were set to
    account 1 and [is_annulled] to true. *)
Definition same_legs : Transaction.t :=
  Transaction.mk (Some 1%nat) (Some 1%nat) (Some 1%nat) (Some 10000)
                 (Transaction.Text "") true None false.

(** An instance built in memory and not saved. *)
Definition unsaved : Transaction.t :=
  Transaction.mk None (Some 1%nat) (Some 2%nat) (Some 10000)
                 (Transaction.Text "") false None false.

(** The reversal that [annul] builds for [pending], and a ledger that
    stores both, neither applied. *)
Definition reversal : Transaction.t :=
  Transaction.mk (Some 2%nat) (Some 2%nat) (Some 1%nat) (Some 10000)
                 (Transaction.Storno (Some 1%nat)) false (Some 1%nat) false.
Definition ledger_with_reversal : DB :=
  mkDB (accounts ledger) (<[2%nat := reversal]> {[1%nat := pending]}) 3 [].

(** The ledger with the pending row and a third account. *)
Definition C : Account.t := Account.mk 3 "0000000003" "C" BOTH 1 700.
Definition ledger_three : DB :=
  mkDB (<[3%nat := C]> (accounts ledger)) {[1%nat := pending]} 2 [].

(** The stored row [pending] as an instance on which the two accounts
    were changed, in memory only, to accounts 2 and 3. *)
Definition moved : Transaction.t :=
  Transaction.mk (Some 1%nat) (Some 2%nat) (Some 3%nat) (Some 10000)
                 (Transaction.Text "") false None false.

(** [apply_balances] on each of them. *)
Definition applied : Result unit * (Transaction.t * DB) :=
  apply_balances (pending, ledger_pending).
Definition applied_swapped : Result unit * (Transaction.t * DB) :=
  apply_balances (pending_swapped, ledger_pending_swapped).

(** A ledger whose Asset account holds 9999999999999990.00, ten units
    below the largest balance its column can hold. *)
Definition A_full : Account.t :=
  Account.mk 1 "0000000001" "A" ASSET 1 999999999999999000.
Definition ledger_full : DB := mkDB (<[2%nat := B]> {[1%nat := A_full]}) ∅ 1 [].

(** Every account number the generator can draw first is taken. *)
Definition zeros : nat → nat := λ _, 0%nat.
Definition taken : DB :=
  mkDB {[1%nat := Account.mk 1 "0000000000" "A" ASSET 1 0]} ∅ 1 [].

(** A generator whose first round draws that number and whose second
    round draws a free one. *)
Definition retry : nat → nat := λ i, if (i <? 10)%nat then 0%nat else 1%nat.

End Scenario.

(** * Proofs *)

Ltac unfold_eff :=
  unfold mbind, mret, Eff_bind, Eff_ret, raise, gets, modify, get_self, get_db,
         set_self, set_db, invoke, call, atomic in *.

Ltac run := unfold_eff; simpl in *.

(** ** Account methods *)

Lemma apply_debit_eq amount self db :
  apply_debit amount (self, db) =
  let self' := Account.set_balance
                 (Account.balance self + computeDelta (Account.type self) Debit amount) self in
  if fits_decimal (Account.balance self') then
    match accounts db !! Account.pk self with
    | None => (inl DatabaseError, (self', db))
    | Some row =>
        (inr tt, (self', set_accounts
                           (<[Account.pk self := Account.set_balance (Account.balance self') row]>
                              (accounts db)) db))
    end
  else (inl InvalidOperation, (self', db)).
Proof.
  unfold apply_debit, Account_save_balance. run.
  destruct self as [k nu na ty g b]; destruct ty; simpl;
    rewrite ?Z.add_opp_r;
    match goal with |- context [fits_decimal ?z] => destruct (fits_decimal z) end;
    simpl; destruct (accounts db !! k); reflexivity.
Qed.

Lemma apply_credit_eq amount self db :
  apply_credit amount (self, db) =
  let self' := Account.set_balance
                 (Account.balance self + computeDelta (Account.type self) Credit amount) self in
  if fits_decimal (Account.balance self') then
    match accounts db !! Account.pk self with
    | None => (inl DatabaseError, (self', db))
    | Some row =>
        (inr tt, (self', set_accounts
                           (<[Account.pk self := Account.set_balance (Account.balance self') row]>
                              (accounts db)) db))
    end
  else (inl InvalidOperation, (self', db)).
Proof.
  unfold apply_credit, Account_save_balance. run.
  destruct self as [k nu na ty g b]; destruct ty; simpl;
    rewrite ?Z.add_opp_r;
    match goal with |- context [fits_decimal ?z] => destruct (fits_decimal z) end;
    simpl; destruct (accounts db !! k); reflexivity.
Qed.

(** ** [apply_balances], case by case *)

Lemma apply_balances_applied self db :
  Transaction.is_applied self = true → apply_balances (self, db) = (inr tt, (self, db)).
Proof. intros H. unfold apply_balances. run. rewrite H. reflexivity. Qed.

Lemma apply_balances_eq self db :
  apply_balances (self, db) =
  if Transaction.is_applied self then (inr tt, (self, db))
  else
    match Transaction.debit_account_id self with
    | None => (inl DoesNotExist, (self, rollback db db))
    | Some d =>
      match accounts db !! d with
      | None => (inl DoesNotExist, (self, rollback db db))
      | Some da =>
        match Transaction.credit_account_id self with
        | None => (inl DoesNotExist, (self, rollback db (add_lock d db)))
        | Some c =>
          match accounts db !! c with
          | None => (inl DoesNotExist, (self, rollback db (add_lock d db)))
          | Some ca =>
            let db2 := add_lock c (add_lock d db) in
            match Transaction.amount self with
            | None => (inl TypeError, (self, rollback db db2))
            | Some amt =>
              if negb (fits_decimal
                         (Account.balance da + computeDelta (Account.type da) Debit amt))
                 || negb (fits_decimal
                            (Account.balance ca + computeDelta (Account.type ca) Credit amt))
              then (inl InvalidOperation, (self, rollback db db2))
              else
              let db4 := set_accounts (post_accounts d c amt da ca (accounts db)) db2 in
              let self' := Transaction.set_is_applied true self in
              match Transaction.pk self with
              | None => (inl ValueError, (self', rollback db db4))
              | Some k =>
                match transactions db !! k with
                | None => (inl DatabaseError, (self', rollback db db4))
                | Some row =>
                  let row' := Transaction.set_is_applied true row in
                  if row_accepted row' db4
                  then (inr tt, (self', set_transactions (<[k := row']> (transactions db))
                                                          (next_pk db) db4))
                  else (inl IntegrityError, (self', rollback db db4))
                end
              end
            end
          end
        end
      end
    end.
Proof.
  unfold apply_balances, select_for_update_get, Model_save. run.
  destruct (Transaction.is_applied self); [reflexivity|].
  destruct (Transaction.debit_account_id self) as [d|]; simpl; [|reflexivity].
  destruct (accounts db !! d) as [da|] eqn:Hd; simpl; [|reflexivity].
  destruct (Transaction.credit_account_id self) as [c|]; simpl; [|reflexivity].
  destruct (accounts db !! c) as [ca|] eqn:Hc; simpl; [|reflexivity].
  destruct (Transaction.amount self) as [amt|]; simpl; [|reflexivity].
  rewrite apply_debit_eq. simpl. rewrite Hd. simpl.
  destruct (fits_decimal (Account.balance da + computeDelta (Account.type da) Debit amt));
    simpl; [|reflexivity].
  rewrite apply_credit_eq. simpl.
  destruct (fits_decimal (Account.balance ca + computeDelta (Account.type ca) Credit amt));
    simpl; [|reflexivity].
  rewrite lookup_insert, Hc.
  unfold post_accounts, set_accounts, set_transactions, add_lock, rollback.
  destruct (decide (d = c)) as [->|Hne]; simpl;
    (destruct (Transaction.pk self) as [k|]; simpl; [|reflexivity]);
    (destruct (transactions db !! k) as [row|]; simpl; [|reflexivity]);
    match goal with |- context [row_accepted ?r ?d] => destruct (row_accepted r d) end;
    reflexivity.
Qed.

(** An exception leaves the tables as they were; success leaves the account
    table posted. *)
Lemma apply_balances_tables self db :
  let out := apply_balances (self, db) in
  (∃ e, out.1 = inl e) →
  accounts out.2.2 = accounts db ∧ transactions out.2.2 = transactions db
  ∧ next_pk out.2.2 = next_pk db.
Proof.
  simpl. rewrite apply_balances_eq. intros [e He]. revert He.
  repeat (case_match; simpl); try done.
Qed.

Lemma clean_eq self db :
  clean (self, db) =
  match first_failure (Transaction.debit_account_id self)
                      (Transaction.credit_account_id self) (Transaction.amount self) with
  | Some m => (inl (ValidationError [m]), (self, db))
  | None => (inr tt, (self, db))
  end.
Proof.
  unfold clean, first_failure. run.
  repeat (case_bool_decide; simpl; try reflexivity).
  all: destruct (Transaction.amount self); simpl; try reflexivity.
  all: repeat (case_bool_decide; simpl; try reflexivity).
Qed.

Lemma first_failure_None d c a :
  first_failure d c a = None ↔
  ∃ d' c' a', d = Some d' ∧ c = Some c' ∧ d' ≠ c' ∧ a = Some a' ∧ 0 < a'.
Proof.
  unfold first_failure. split.
  - repeat case_bool_decide; try done. destruct a as [v|]; [|done].
    case_bool_decide; [done|]. intros _.
    destruct d as [d'|]; [|tauto]. destruct c as [c'|]; [|tauto].
    exists d', c', v. split_and!; try done; [congruence|lia].
  - intros (d' & c' & a' & -> & -> & Hne & -> & Hpos).
    rewrite bool_decide_eq_false_2 by (intros [?|?]; done).
    rewrite bool_decide_eq_false_2 by congruence.
    rewrite bool_decide_eq_false_2 by lia. done.
Qed.

Lemma full_clean_eq self db :
  full_clean (self, db) =
  let reported :=
    clean_fields self db
    ++ match first_failure (Transaction.debit_account_id self)
                           (Transaction.credit_account_id self) (Transaction.amount self) with
       | Some m => [m]
       | None => []
       end
    ++ validate_constraints self in
  match reported with
  | [] => (inr tt, (self, db))
  | _ => (inl (ValidationError reported), (self, db))
  end.
Proof.
  unfold full_clean. run. rewrite clean_eq.
  destruct (first_failure _ _ _); simpl; destruct (clean_fields self db ++ _); reflexivity.
Qed.

Lemma full_clean_state self db : (full_clean (self, db)).2 = (self, db).
Proof. rewrite full_clean_eq. simpl. by case_match. Qed.

Lemma save_eq uf self db :
  save uf (self, db) =
  match (full_clean (self, db)).1 with
  | inl e => (inl e, (self, db))
  | inr _ =>
      match Model_save uf (self, db) with
      | (inl e, s1) => (inl e, s1)
      | (inr _, s1) =>
          if bool_decide (Transaction.pk self = None)
             && bool_decide (Transaction.reversal_of_id s1.1 = None)
          then apply_balances s1
          else (inr tt, s1)
      end
  end.
Proof.
  unfold save. unfold mbind at 1, Eff_bind at 1.
  pose proof (full_clean_state self db) as Hs.
  destruct (full_clean (self, db)) as [[e|[]] s]; simpl in *; subst s; [reflexivity|].
  run. destruct (Model_save uf (self, db)) as [[e|[]] s1]; [reflexivity|].
  destruct s1 as [self1 db1]; simpl. by case_match.
Qed.

(** What [Model.save] can do to the database and to the instance. *)
Lemma Model_save_cases uf self db :
  let out := Model_save uf (self, db) in
  accounts out.2.2 = accounts db ∧ locked out.2.2 = locked db ∧
  ((∃ e, out.1 = inl e) → out.2 = (self, db)) ∧
  (out.2.1 = self
   ∨ Transaction.pk self = None ∧ uf = None
     ∧ ∃ k, out.2.1 = Transaction.set_pk (Some k) self) ∧
  (transactions out.2.2 = transactions db
   ∨ ∃ k row, transactions out.2.2 = <[k := row]> (transactions db)
       ∧ row_accepted row db = true
       ∧ (uf = None ∧ (row = self ∨ row = Transaction.set_pk (Some k) self)
          ∨ ∃ fields old, uf = Some fields ∧ transactions db !! k = Some old
              ∧ row = foldl (Transaction.write_field self) old fields)).
Proof.
  unfold Model_save, insert_row. run.
  destruct db as [A T n L]; simpl.
  destruct uf as [[|f fs]|], (Transaction.pk self) as [k|] eqn:Hpk; simpl;
    try (split_and!; by eauto).
  - match goal with |- context [if ?b then _ else _] => destruct b eqn:Hprep end;
      simpl; [split_and!; by eauto|].
    destruct (T !! k) as [old|] eqn:Hk; simpl; [|split_and!; by eauto].
    case_match eqn:Hacc; simpl; [split_and!; by eauto|].
    apply negb_false_iff in Hacc.
    split_and!; try (by eauto); [by intros [? [=]]|].
    right. exists k. eexists. split_and!; [done|done|].
    right. eauto.
  - destruct (amount_prepared self) eqn:Hprep; simpl; [|split_and!; by eauto].
    destruct (T !! k) as [old|] eqn:Hk; simpl.
    + case_match eqn:Hacc; simpl; [split_and!; by eauto|].
      apply negb_false_iff in Hacc.
      split_and!; try (by eauto); [by intros [? [=]]|].
      right. exists k. eexists. split_and!; [done|done|]. eauto.
    + rewrite ?Hprep, ?Hk; simpl. rewrite ?Hprep, ?Hk; simpl.
      case_match eqn:Hacc; simpl; [split_and!; by eauto|].
      apply negb_false_iff in Hacc.
      split_and!; try (by eauto); [by intros [? [=]]| |].
      * left. destruct self; simpl in *. by subst.
      * right. exists k. eexists. split_and!; [done|done|]. left. split; [done|].
        right. done.
  - destruct (amount_prepared self) eqn:Hprep; simpl; [|split_and!; by eauto].
    rewrite ?Hprep; simpl.
    destruct (T !! n) as [old|] eqn:Hk; simpl; [split_and!; by eauto|].
    case_match eqn:Hacc; simpl; [split_and!; by eauto|].
    apply negb_false_iff in Hacc.
    split_and!; try (by eauto); [by intros [? [=]]|].
    right. exists n. eexists. split_and!; [done|done|].
    left. eauto.
Qed.

(** ** Stored rows stay valid *)

Lemma clean_passes_iff self db :
  (clean (self, db)).1 = inr tt ↔ posting_valid self.
Proof.
  rewrite clean_eq. unfold posting_valid. rewrite <- first_failure_None.
  destruct (first_failure _ _ _); simpl; split; congruence.
Qed.

Lemma full_clean_passes self db :
  (full_clean (self, db)).1 = inr tt → posting_valid self.
Proof.
  rewrite full_clean_eq. simpl. intros H. apply (clean_passes_iff self db).
  rewrite clean_eq.
  destruct (first_failure _ _ _); simpl in *; [|done].
  destruct (clean_fields self db); simpl in H; discriminate.
Qed.

Lemma write_flags_posting self old fields :
  whole_or_flags (Some fields) →
  let row := foldl (Transaction.write_field self) old fields in
  Transaction.debit_account_id row = Transaction.debit_account_id old ∧
  Transaction.credit_account_id row = Transaction.credit_account_id old ∧
  Transaction.amount row = Transaction.amount old.
Proof.
  simpl. revert old. induction fields as [|f fs IH]; intros old Hfl; simpl; [done|].
  destruct (IH (Transaction.write_field self old f)) as (-> & -> & ->).
  { intros g Hg. apply Hfl. by right. }
  destruct (Hfl f) as (? & ? & ?); [by left|].
  destruct f; done.
Qed.

Lemma posting_valid_ext row row' :
  Transaction.debit_account_id row' = Transaction.debit_account_id row →
  Transaction.credit_account_id row' = Transaction.credit_account_id row →
  Transaction.amount row' = Transaction.amount row →
  posting_valid row → posting_valid row'.
Proof. unfold posting_valid. intros -> -> ->. done. Qed.

Lemma Model_save_rows_valid uf self db :
  whole_or_flags uf → posting_valid self → rows_valid db →
  rows_valid (Model_save uf (self, db)).2.2.
Proof.
  intros Hfl Hself Hdb. unfold rows_valid.
  destruct (Model_save_cases uf self db) as (_ & _ & _ & _ & [->|HT]); [done|].
  destruct HT as (k & row & -> & _ & Hrow). intros k' row'.
  rewrite lookup_insert. case_decide; [|by apply Hdb]. intros [= <-].
  destruct Hrow as [[_ [->| ->]]|(fields & old & -> & Hold & ->)]; try done.
  destruct (write_flags_posting self old fields Hfl) as (? & ? & ?).
  eapply posting_valid_ext; eauto.
Qed.

Lemma row_accepted_amount row db :
  row_accepted row db = true → ∃ a, Transaction.amount row = Some a ∧ 0 < a.
Proof.
  unfold row_accepted. rewrite !andb_true_iff. intros [[[H _] _] _].
  destruct (Transaction.amount row) as [a|]; [|done].
  apply bool_decide_eq_true in H. eauto.
Qed.

Lemma Model_save_amounts_positive uf self db :
  amounts_positive db → amounts_positive (Model_save uf (self, db)).2.2.
Proof.
  intros Hdb. unfold amounts_positive.
  destruct (Model_save_cases uf self db) as (_ & _ & _ & _ & [->|HT]); [done|].
  destruct HT as (k & row & -> & Hacc & _). intros k' row'.
  rewrite lookup_insert. case_decide; [|by apply Hdb]. intros [= <-].
  by eapply row_accepted_amount.
Qed.

Lemma apply_balances_transactions self db :
  let out := apply_balances (self, db) in
  transactions out.2.2 = transactions db
  ∨ ∃ k row, transactions db !! k = Some row
      ∧ transactions out.2.2 = <[k := Transaction.set_is_applied true row]> (transactions db).
Proof.
  simpl. rewrite apply_balances_eq.
  repeat (case_match; simpl); eauto.
Qed.

Lemma apply_balances_rows_valid self db :
  rows_valid db → rows_valid (apply_balances (self, db)).2.2.
Proof.
  intros Hdb. unfold rows_valid.
  destruct (apply_balances_transactions self db) as [->|(k & row & Hk & ->)]; [done|].
  intros k' row'. rewrite lookup_insert. case_decide; [|by apply Hdb]. intros [= <-].
  eapply posting_valid_ext; [..|by eapply Hdb]; done.
Qed.

Lemma save_rows_valid uf self db :
  whole_or_flags uf → rows_valid db → rows_valid (save uf (self, db)).2.2.
Proof.
  intros Hfl Hdb. rewrite save_eq.
  destruct (full_clean (self, db)).1 as [e|[]] eqn:Hc; simpl; [done|].
  apply full_clean_passes in Hc.
  pose proof (Model_save_rows_valid uf self db Hfl Hc Hdb) as H1.
  destruct (Model_save uf (self, db)) as [[e|[]] [self1 db1]]; simpl in *; [done|].
  case_match; simpl; [|done]. by apply apply_balances_rows_valid.
Qed.

(** ** [save] and [annul], case by case *)

Lemma Model_save_reversal_of uf self db :
  Transaction.reversal_of_id (Model_save uf (self, db)).2.1 = Transaction.reversal_of_id self.
Proof.
  destruct (Model_save_cases uf self db) as (_ & _ & _ & [->|(_ & _ & k & ->)] & _); done.
Qed.

(** A save that is not the first save of an ordinary transaction posts
    nothing. *)
Lemma save_accounts_no_apply uf self db :
  Transaction.pk self ≠ None ∨ Transaction.reversal_of_id self ≠ None →
  accounts (save uf (self, db)).2.2 = accounts db.
Proof.
  intros Hno. rewrite save_eq.
  destruct (full_clean (self, db)).1 as [e|[]]; simpl; [done|].
  pose proof (Model_save_cases uf self db) as (Hacc & _).
  pose proof (Model_save_reversal_of uf self db) as Hrev.
  destruct (Model_save uf (self, db)) as [[e|[]] [self1 db1]]; simpl in *; [done|].
  rewrite Hrev.
  destruct Hno as [Hno|Hno];
    [rewrite (bool_decide_eq_false_2 _ Hno)
    |rewrite (bool_decide_eq_false_2 (Transaction.reversal_of_id self = None) Hno),
       andb_false_r]; done.
Qed.

Lemma apply_balances_posted self db :
  posted_by self (accounts db) (accounts (apply_balances (self, db)).2.2).
Proof.
  rewrite apply_balances_eq. unfold posted_by.
  destruct (Transaction.is_applied self); [by left|].
  destruct (Transaction.debit_account_id self) as [d|]; [|by left].
  destruct (accounts db !! d) as [da|] eqn:Hda; [|by left].
  destruct (Transaction.credit_account_id self) as [c|]; [|by left].
  destruct (accounts db !! c) as [ca|] eqn:Hca; [|by left].
  destruct (Transaction.amount self) as [amt|]; [|by left]. simpl.
  case_match; [by left|].
  destruct (Transaction.pk self) as [k|]; [|by left].
  destruct (transactions db !! k) as [row|]; [|by left].
  case_match; [|by left].
  right. exists d, c, amt, da, ca. done.
Qed.

Lemma save_accounts uf self db :
  posted_by self (accounts db) (accounts (save uf (self, db)).2.2).
Proof.
  rewrite save_eq.
  destruct (full_clean (self, db)).1 as [e|[]]; simpl; [by left|].
  pose proof (Model_save_cases uf self db) as (Hacc & _ & _ & Hself & _).
  destruct (Model_save uf (self, db)) as [[e|[]] [self1 db1]]; simpl in *; [by left|].
  case_match; simpl; [|by left].
  pose proof (apply_balances_posted self1 db1) as Hp. rewrite Hacc in Hp.
  destruct Hself as [->|(_ & _ & k & ->)]; exact Hp.
Qed.

Lemma annul_eq self db :
  annul (self, db) =
  if Transaction.is_annulled self
  then (inl (ValidationError [AlreadyAnnulled]), (self, db))
  else if bool_decide (Transaction.reversal_of_id self ≠ None)
  then (inl (ValidationError [CannotAnnulAReversal]), (self, db))
  else
    match save (Some [Transaction.is_annulled_field])
               (Transaction.set_is_annulled true self, db) with
    | (inl e, s1) => (inl e, (s1.1, rollback db s1.2))
    | (inr _, s1) =>
        match save None
                (Transaction.mk None
                   (Transaction.credit_account_id s1.1)
                   (Transaction.debit_account_id s1.1)
                   (Transaction.amount s1.1)
                   (Transaction.Storno (Transaction.pk s1.1))
                   false (Transaction.pk s1.1) false,
                 s1.2) with
        | (inl e, s2) => (inl e, (s1.1, rollback db s2.2))
        | (inr _, s2) => (inr s2.1, (s1.1, s2.2))
        end
    end.
Proof.
  unfold annul, Transaction_objects_create. run.
  destruct (Transaction.is_annulled self); [reflexivity|]. simpl.
  case_bool_decide; simpl; [reflexivity|].
  destruct (save _ (Transaction.set_is_annulled true self, db)) as [[e|[]] [self1 db1]];
    simpl; [reflexivity|].
  destruct (save None _) as [[e|[]] [rev db2]]; reflexivity.
Qed.

(** A save with [update_fields] succeeds only on a stored instance, which
    it leaves as it is; it posts nothing. *)
Lemma save_update_fields f fs self db :
  let out := save (Some (f :: fs)) (self, db) in
  out.1 = inr tt →
  Transaction.pk self ≠ None ∧ out.2.1 = self ∧ accounts out.2.2 = accounts db.
Proof.
  simpl. rewrite save_eq.
  destruct (full_clean (self, db)).1 as [e|[]]; simpl; [done|].
  pose proof (Model_save_cases (Some (f :: fs)) self db) as (Hacc & _ & _ & Hself & _).
  destruct (Transaction.pk self) as [k|] eqn:Hpk.
  - destruct (Model_save _ (self, db)) as [[e|[]] [self1 db1]]; simpl in *; [done|].
    intros _. split_and!; [done| |done].
    destruct Hself as [->|(? & ? & _)]; done.
  - unfold Model_save. run. rewrite Hpk. done.
Qed.

(** [annul] never changes an account. *)
Lemma annul_accounts self db : accounts (annul (self, db)).2.2 = accounts db.
Proof.
  rewrite annul_eq.
  destruct (Transaction.is_annulled self); [done|].
  case_bool_decide; [done|].
  pose proof (save_update_fields Transaction.is_annulled_field []
                (Transaction.set_is_annulled true self) db) as H1.
  destruct (save (Some _) _) as [[e|[]] [self1 db1]]; simpl in *; [done|].
  destruct H1 as (Hpk & -> & Hacc1); [done|].
  match goal with |- context [save None (?r, db1)] =>
    pose proof (save_accounts_no_apply None r db1) as H2;
    destruct (save None (r, db1)) as [[e|[]] [rev db2]]
  end; simpl in *; [done|].
  rewrite H2; [done|]. by right.
Qed.

Lemma annul_rows_valid self db :
  rows_valid db → rows_valid (annul (self, db)).2.2.
Proof.
  intros Hdb. rewrite annul_eq.
  destruct (Transaction.is_annulled self); [done|].
  case_bool_decide; [done|].
  match goal with |- context [save (Some ?fs) (?s, db)] =>
    pose proof (save_rows_valid (Some fs) s db) as H1;
    destruct (save (Some fs) (s, db)) as [[e|[]] [self1 db1]]
  end; simpl in *; [done|].
  assert (rows_valid db1) as Hdb1.
  { apply H1; [|done]. intros f Hf. apply list_elem_of_singleton in Hf as ->. done. }
  match goal with |- context [save None (?r, db1)] =>
    pose proof (save_rows_valid None r db1 I Hdb1) as H2;
    destruct (save None (r, db1)) as [[e|[]] [rev db2]]
  end; simpl in *; done.
Qed.

(** ** The view *)

Lemma account_type_is_raises obj s db :
  account_type_is obj s db = (inl AttributeError, db).
Proof. reflexivity. Qed.

(** The view raises [AttributeError] on every valid form, renders the form
    otherwise, and writes nothing. *)
Lemma transaction_create_eq request db :
  transaction_create request db =
  (match request with
   | GET => inr render_transaction_form
   | POST d c a text =>
       if is_valid (mkForm d c a text) db then inl AttributeError
       else inr render_transaction_form
   end, db).
Proof.
  destruct request as [|d c a text]; [reflexivity|].
  unfold transaction_create. run.
  destruct (is_valid _ db); [|reflexivity].
  repeat case_match; reflexivity.
Qed.

(** A valid form exists, and the view raises on it. *)
Lemma transaction_create_valid_form_raises :
  is_valid (mkForm (Some 1%nat) (Some 2%nat) (Some 10000) "") Scenario.ledger = true
  ∧ transaction_create (POST (Some 1%nat) (Some 2%nat) (Some 10000) "") Scenario.ledger
    = (inl AttributeError, Scenario.ledger).
Proof. split; [by vm_compute|]. rewrite transaction_create_eq. by vm_compute. Qed.

(** ** The admin action *)

Lemma make_annulled_loop_accounts objs count sent db :
  accounts (make_annulled_loop objs count sent db).2 = accounts db.
Proof.
  revert count sent db. induction objs as [|obj rest IH]; intros count sent db; [done|].
  simpl. pose proof (annul_accounts obj db) as Ha.
  destruct (annul (obj, db)) as [[e|rev] [self' db']]; simpl in *; by rewrite IH.
Qed.

Lemma make_annulled_loop_rows_valid objs count sent db :
  rows_valid db → rows_valid (make_annulled_loop objs count sent db).2.
Proof.
  revert count sent db. induction objs as [|obj rest IH]; intros count sent db Hdb; [done|].
  simpl. pose proof (annul_rows_valid obj db Hdb) as Ha.
  destruct (annul (obj, db)) as [[e|rev] [self' db']]; simpl in *; by apply IH.
Qed.

Lemma make_annulled_db queryset db :
  (make_annulled queryset db).2 =
  (make_annulled_loop (omap (λ k, transactions db !! k) queryset) 0 [] db).2.
Proof.
  unfold make_annulled.
  destruct (make_annulled_loop _ 0 [] db) as [[count sent] db']. reflexivity.
Qed.

(** * The claims *)

(** ** C6: the rule engine *)

(** C6. [apply_debit] adds [+amount] to the balance of an Asset or Both
    account and [-amount] to that of a Liability account; [apply_credit]
    adds [-amount] and [+amount] respectively; these are the deltas of the
    specification's [computeDelta].  The instance carries the new balance in
    every case; the stored row receives it when it fits the column
    ([max_digits=18, decimal_places=2]), and otherwise the write raises
    [decimal.InvalidOperation] and the database is as it was.  Creating a
    transaction of 100.00 that debits the Asset account A (balance 0) and
    credits the Liability account B (balance 0) leaves both balances at
    100.00. *)
Theorem rule_engine_deltas :
  (∀ (self : Account.t) (amount : Z) (db : DB),
     let debited := apply_debit amount (self, db) in
     let credited := apply_credit amount (self, db) in
     Account.balance debited.2.1 =
       match Account.type self with
       | ASSET | BOTH => Account.balance self + amount
       | LIABILITY => Account.balance self - amount
       end
     ∧ Account.balance credited.2.1 =
       match Account.type self with
       | ASSET | BOTH => Account.balance self - amount
       | LIABILITY => Account.balance self + amount
       end
     ∧ Account.balance debited.2.1 =
         Account.balance self + computeDelta (Account.type self) Debit amount
     ∧ Account.balance credited.2.1 =
         Account.balance self + computeDelta (Account.type self) Credit amount
     ∧ (if fits_decimal (Account.balance debited.2.1)
        then Account.balance <$> accounts debited.2.2 !! Account.pk self =
               (λ _, Account.balance debited.2.1) <$> accounts db !! Account.pk self
        else debited.1 = inl InvalidOperation ∧ debited.2.2 = db)
     ∧ (if fits_decimal (Account.balance credited.2.1)
        then Account.balance <$> accounts credited.2.2 !! Account.pk self =
               (λ _, Account.balance credited.2.1) <$> accounts db !! Account.pk self
        else credited.1 = inl InvalidOperation ∧ credited.2.2 = db))
  ∧ (balance_of Scenario.ledger 1 = 0 ∧ balance_of Scenario.ledger 2 = 0
     ∧ Scenario.created.1 = inr Scenario.original
     ∧ balance_of Scenario.created.2.2 1 = 10000
     ∧ balance_of Scenario.created.2.2 2 = 10000).
Proof.
  split.
  - intros self amount db. simpl.
    rewrite apply_debit_eq, apply_credit_eq. simpl.
    destruct (fits_decimal (Account.balance self
                            + computeDelta (Account.type self) Debit amount)) eqn:Hd,
             (fits_decimal (Account.balance self
                            + computeDelta (Account.type self) Credit amount)) eqn:Hc;
      destruct (accounts db !! Account.pk self) as [row|] eqn:Hrow; simpl;
      rewrite ?Hd, ?Hc; simpl;
      rewrite ?lookup_insert_eq, ?Hrow; simpl;
      destruct (Account.type self); simpl; split_and!; try done; f_equal; lia.
  - by vm_compute.
Qed.

(** ** C1: the reversal created by [annul] *)

(** C1. On the ledger where the transaction of 100.00 from the Asset
    account A to the Liability account B has been created and applied (both
    balances 100.00), [annul] returns a reversal with the legs swapped, the
    same amount and [reversal_of] pointing at the original, and marks the
    original annulled; but the reversal is stored with [is_applied] false
    and both balances are still 100.00, not 0: [save] applies balances only
    when [reversal_of_id] is [None]. *)
Theorem annul_reversal_not_applied :
  balance_of Scenario.created.2.2 1 = 10000
  ∧ balance_of Scenario.created.2.2 2 = 10000
  ∧ ∃ reversal,
      Scenario.annulled.1 = inr reversal
      ∧ Transaction.debit_account_id reversal = Some 2%nat
      ∧ Transaction.credit_account_id reversal = Some 1%nat
      ∧ Transaction.amount reversal = Some 10000
      ∧ Transaction.reversal_of_id reversal = Some 1%nat
      ∧ Transaction.pk reversal = Some 2%nat
      ∧ transactions Scenario.annulled.2.2 !! 2%nat = Some reversal
      ∧ Transaction.is_annulled Scenario.annulled.2.1 = true
      ∧ Transaction.is_applied reversal = false
      ∧ balance_of Scenario.annulled.2.2 1 = 10000
      ∧ balance_of Scenario.annulled.2.2 2 = 10000.
Proof.
  split_and!; [by vm_compute..|].
  eexists. split; [by vm_compute|]. by vm_compute.
Qed.

(** ** C2: the two deltas of one transaction *)

(** C2, as stated, fails: the valid transaction of 100.00 that debits the
    Asset account A and credits the Liability account B posts +100.00 to
    each, and the two deltas sum to 200.00. *)
Lemma deltas_asset_liability_do_not_cancel :
  let before := Scenario.ledger_pending in
  let out := apply_balances (Scenario.pending, before) in
  (clean (Scenario.pending, before)).1 = inr tt
  ∧ out.1 = inr tt
  ∧ posted_delta 1 before out.2.2 = 10000
  ∧ posted_delta 2 before out.2.2 = 10000
  ∧ posted_delta 1 before out.2.2 + posted_delta 2 before out.2.2 ≠ 0.
Proof. by vm_compute. Qed.

Lemma computeDelta_sides ta tb amt :
  ((ta ∈ [ASSET; BOTH] ↔ tb ∈ [ASSET; BOTH]) →
     computeDelta ta Debit amt + computeDelta tb Credit amt = 0)
  ∧ (¬ (ta ∈ [ASSET; BOTH] ↔ tb ∈ [ASSET; BOTH]) →
     computeDelta ta Debit amt = computeDelta tb Credit amt).
Proof.
  assert (Hl : LIABILITY ∉ [ASSET; BOTH])
    by (rewrite !elem_of_cons, elem_of_nil; by intros [?|[?|?]]).
  assert (Ha : ASSET ∈ [ASSET; BOTH]) by apply list_elem_of_here.
  assert (Hb : BOTH ∈ [ASSET; BOTH]) by apply list_elem_of_further, list_elem_of_here.
  destruct ta, tb; simpl; split; intros H; try lia; tauto.
Qed.

(** C2, amended.  For a valid transaction that [apply_balances] applies, the
    delta posted to the debit account is [computeDelta] of its type for the
    debit leg and the delta posted to the credit account is [computeDelta]
    of its type for the credit leg; the two sum to zero when both accounts
    are on the same side (each Asset or Both, or both Liability), and are
    equal when one is Asset or Both and the other Liability. *)
Theorem posted_deltas self db s' :
  (clean (self, db)).1 = inr tt →
  Transaction.is_applied self = false →
  apply_balances (self, db) = (inr tt, s') →
  ∃ d c amt da ca,
    Transaction.debit_account_id self = Some d
    ∧ Transaction.credit_account_id self = Some c
    ∧ Transaction.amount self = Some amt
    ∧ accounts db !! d = Some da ∧ accounts db !! c = Some ca
    ∧ posted_delta d db s'.2 = computeDelta (Account.type da) Debit amt
    ∧ posted_delta c db s'.2 = computeDelta (Account.type ca) Credit amt
    ∧ (same_side da ca → posted_delta d db s'.2 + posted_delta c db s'.2 = 0)
    ∧ (¬ same_side da ca → posted_delta d db s'.2 = posted_delta c db s'.2).
Proof.
  intros Hclean Hna. apply clean_passes_iff in Hclean.
  destruct Hclean as (d & c & a & Hd & Hc & Hne & Ha & Hpos).
  rewrite apply_balances_eq, Hna, Hd, Hc, Ha.
  destruct (accounts db !! d) as [da|] eqn:Hda; [|done].
  destruct (accounts db !! c) as [ca|] eqn:Hca; [|done].
  simpl. case_match eqn:Hfit; [done|].
  destruct (Transaction.pk self) as [k|]; [|done].
  destruct (transactions db !! k) as [row|]; [|done].
  case_match; [|done]. intros [= <-].
  exists d, c, a, da, ca.
  assert (posted_delta d db
            (set_transactions (<[k:=Transaction.set_is_applied true row]> (transactions db))
               (next_pk db)
               (set_accounts (post_accounts d c a da ca (accounts db))
                  (add_lock c (add_lock d db))))
          = computeDelta (Account.type da) Debit a) as Hdd.
  { unfold posted_delta, balance_of, post_accounts. simpl.
    rewrite lookup_insert_ne by done. rewrite lookup_insert_eq, Hda. simpl. lia. }
  assert (posted_delta c db
            (set_transactions (<[k:=Transaction.set_is_applied true row]> (transactions db))
               (next_pk db)
               (set_accounts (post_accounts d c a da ca (accounts db))
                  (add_lock c (add_lock d db))))
          = computeDelta (Account.type ca) Credit a) as Hdc.
  { unfold posted_delta, balance_of, post_accounts. simpl.
    rewrite lookup_insert_eq, Hca. rewrite decide_False by done. simpl. lia. }
  simpl. rewrite Hdd, Hdc.
  split_and!; try done; apply computeDelta_sides.
Qed.

Lemma posted_deltas_witness :
  (clean (Scenario.pending, Scenario.ledger_pending)).1 = inr tt
  ∧ Transaction.is_applied Scenario.pending = false
  ∧ ∃ d c amt da ca,
    Transaction.debit_account_id Scenario.pending = Some d
    ∧ Transaction.credit_account_id Scenario.pending = Some c
    ∧ Transaction.amount Scenario.pending = Some amt
    ∧ accounts Scenario.ledger_pending !! d = Some da
    ∧ accounts Scenario.ledger_pending !! c = Some ca
    ∧ posted_delta d Scenario.ledger_pending Scenario.applied.2.2
      = computeDelta (Account.type da) Debit amt
    ∧ posted_delta c Scenario.ledger_pending Scenario.applied.2.2
      = computeDelta (Account.type ca) Credit amt
    ∧ (same_side da ca →
       posted_delta d Scenario.ledger_pending Scenario.applied.2.2
       + posted_delta c Scenario.ledger_pending Scenario.applied.2.2 = 0)
    ∧ (¬ same_side da ca →
       posted_delta d Scenario.ledger_pending Scenario.applied.2.2
       = posted_delta c Scenario.ledger_pending Scenario.applied.2.2).
Proof.
  split; [reflexivity|]. split; [reflexivity|].
  apply (posted_deltas Scenario.pending Scenario.ledger_pending Scenario.applied.2).
  - reflexivity.
  - reflexivity.
  - vm_compute. reflexivity.
Defined.

(** ** C3: who writes a balance *)






(** ** C4: the order of the row locks *)

(** C4, as stated, fails: with account 1 as debit and account 2 as credit
    the locks are taken in the order 1, 2; with the roles swapped they are
    taken in the order 2, 1. *)
Lemma lock_order_follows_roles :
  locked Scenario.applied.2.2 = [1%nat; 2%nat]
  ∧ locked Scenario.applied_swapped.2.2 = [2%nat; 1%nat]
  ∧ locked Scenario.applied.2.2 ≠ locked Scenario.applied_swapped.2.2.
Proof. by vm_compute. Qed.

(** C4, amended.  When [apply_balances] runs on a transaction that is not
    applied yet and whose two accounts exist, it locks the debit account
    first and the credit account second, whatever their keys. *)
Theorem locks_debit_then_credit self db d c :
  Transaction.is_applied self = false →
  Transaction.debit_account_id self = Some d →
  Transaction.credit_account_id self = Some c →
  is_Some (accounts db !! d) →
  is_Some (accounts db !! c) →
  locked (apply_balances (self, db)).2.2 = locked db ++ [d; c].
Proof.
  intros Hna Hd Hc [da Hda] [ca Hca].
  rewrite apply_balances_eq, Hna, Hd, Hc, Hda, Hca.
  repeat (case_match; simpl); by rewrite <- app_assoc.
Qed.

Lemma locks_debit_then_credit_witness :
  locked (apply_balances (Scenario.pending_swapped, Scenario.ledger_pending_swapped)).2.2
  = locked Scenario.ledger_pending_swapped ++ [2%nat; 1%nat].
Proof.
  apply (locks_debit_then_credit Scenario.pending_swapped Scenario.ledger_pending_swapped).
  - reflexivity.
  - reflexivity.
  - reflexivity.
  - exists Scenario.B. reflexivity.
  - exists Scenario.A. reflexivity.
Defined.

(** ** C5: applying twice *)

Lemma apply_balances_again self db :
  let once := apply_balances (self, db) in
  let twice := apply_balances once.2 in
  twice.2.1 = once.2.1
  ∧ accounts twice.2.2 = accounts once.2.2
  ∧ transactions twice.2.2 = transactions once.2.2
  ∧ next_pk twice.2.2 = next_pk once.2.2
  ∧ (once.1 = inr tt → twice = (inr tt, once.2)).
Proof.
  simpl. rewrite (apply_balances_eq self db).
  destruct (Transaction.is_applied self) eqn:Hna; simpl.
  { rewrite apply_balances_applied by done. done. }
  destruct (Transaction.debit_account_id self) as [d|] eqn:Hd; simpl;
    [|by rewrite apply_balances_eq, Hna, Hd].
  destruct (accounts db !! d) as [da|] eqn:Hda; simpl;
    [|by rewrite apply_balances_eq, Hna, Hd; simpl; rewrite Hda].
  destruct (Transaction.credit_account_id self) as [c|] eqn:Hc; simpl;
    [|by rewrite apply_balances_eq, Hna, Hd, Hc; simpl; rewrite Hda].
  destruct (accounts db !! c) as [ca|] eqn:Hca; simpl;
    [|by rewrite apply_balances_eq, Hna, Hd, Hc; simpl; rewrite Hda, Hca].
  destruct (Transaction.amount self) as [amt|] eqn:Ha; simpl;
    [|by rewrite apply_balances_eq, Hna, Hd, Hc, Ha; simpl; rewrite Hda, Hca].
  match goal with |- context [if ?b then (inl InvalidOperation, _) else _] =>
    destruct b eqn:Hfit end; simpl;
    [by rewrite apply_balances_eq, Hna, Hd, Hc, Ha; simpl; rewrite Hda, Hca; simpl;
        rewrite Hfit|].
  repeat (case_match; simpl); by rewrite apply_balances_applied.
Qed.

(** C5. [apply_balances] on a transaction whose [is_applied] is already
    true changes nothing: not the instance, not a balance, not a row.
    Called a second time on the instance and database that a first call
    left, it leaves the instance and both tables exactly as the first call
    left them (after a first call that succeeded it is the no-op above), so
    two calls give the balances of one. *)
Theorem apply_balances_idempotent :
  (∀ self db,
     Transaction.is_applied self = true →
     apply_balances (self, db) = (inr tt, (self, db)))
  ∧ (∀ self db,
       let once := apply_balances (self, db) in
       let twice := apply_balances once.2 in
       twice.2.1 = once.2.1
       ∧ accounts twice.2.2 = accounts once.2.2
       ∧ transactions twice.2.2 = transactions once.2.2
       ∧ (∀ k, balance_of twice.2.2 k = balance_of once.2.2 k)
       ∧ (once.1 = inr tt →
          Transaction.is_applied once.2.1 = true ∧ twice = (inr tt, once.2))).
Proof.
  split; [apply apply_balances_applied|].
  intros self db. simpl.
  destruct (apply_balances_again self db) as (H1 & H2 & H3 & _ & H5).
  split_and!; try done.
  - intros k. unfold balance_of. by rewrite H2.
  - intros Hok. split; [|by apply H5].
    revert Hok. rewrite apply_balances_eq.
    destruct (Transaction.is_applied self) eqn:Hna; [done|].
    repeat (case_match; simpl); done.
Qed.

Lemma apply_balances_idempotent_witness :
  Transaction.is_applied Scenario.original = true
  ∧ apply_balances (Scenario.original, Scenario.created.2.2)
    = (inr tt, (Scenario.original, Scenario.created.2.2))
  ∧ Scenario.applied.1 = inr tt
  ∧ Transaction.is_applied Scenario.applied.2.1 = true
  ∧ apply_balances Scenario.applied.2 = (inr tt, Scenario.applied.2).
Proof.
  split; [reflexivity|]. split.
  - apply (proj1 apply_balances_idempotent Scenario.original Scenario.created.2.2).
    reflexivity.
  - split; [by vm_compute|].
    apply (proj2 apply_balances_idempotent Scenario.pending Scenario.ledger_pending).
    by vm_compute.
Defined.

(** ** C7: a create request that fails validation *)

Lemma check_reference_kind {V} field k (table : gmap nat V) m :
  m ∈ check_reference field k table → m = FieldDoesNotExist field.
Proof.
  unfold check_reference. destruct k as [k|]; [|by intros ?%elem_of_nil].
  destruct (table !! k); [by intros ?%elem_of_nil|].
  by intros ?%list_elem_of_singleton.
Qed.

Lemma clean_fields_kinds self db m :
  m ∈ clean_fields self db → m ∉ [MissingAccount; SameAccount; NonPositiveAmount].
Proof.
  unfold clean_fields, check_amount. rewrite !elem_of_app.
  intros Hm Hk. rewrite !elem_of_cons, elem_of_nil in Hk.
  destruct Hm as [Hm|[Hm|[Hm|[Hm|Hm]]]];
    try (apply check_reference_kind in Hm as ->; by destruct Hk as [?|[?|[?|?]]]).
  - destruct (Transaction.amount self) as [a|]; [destruct (fits_decimal a)|];
      [by apply elem_of_nil in Hm|..];
      apply list_elem_of_singleton in Hm as ->; by destruct Hk as [?|[?|[?|?]]].
  - destruct (Transaction.description_fits _); [by apply elem_of_nil in Hm|].
    apply list_elem_of_singleton in Hm as ->. by destruct Hk as [?|[?|[?|?]]].
Qed.

Lemma validate_constraints_kinds self m :
  m ∈ validate_constraints self → m ∉ [MissingAccount; SameAccount; NonPositiveAmount].
Proof.
  unfold validate_constraints. intros Hm Hk.
  rewrite !elem_of_cons, elem_of_nil in Hk.
  destruct (Transaction.amount self) as [a|]; [|by apply elem_of_nil in Hm].
  destruct (_ && _); [|by apply elem_of_nil in Hm].
  apply list_elem_of_singleton in Hm as ->. by destruct Hk as [?|[?|[?|?]]].
Qed.

Lemma save_rejects uf self db k :
  first_failure (Transaction.debit_account_id self) (Transaction.credit_account_id self)
                (Transaction.amount self) = Some k →
  ∃ ms, save uf (self, db) = (inl (ValidationError ms), (self, db))
        ∧ k ∈ ms
        ∧ ∀ k', k' ∈ ms → k' ∈ [MissingAccount; SameAccount; NonPositiveAmount] → k' = k.
Proof.
  intros Hk. rewrite save_eq, full_clean_eq, Hk. simpl.
  destruct (clean_fields self db ++ k :: validate_constraints self) as [|m ms] eqn:Hms.
  { by apply app_nil in Hms as [_ ?]. }
  simpl. exists (m :: ms). rewrite <- Hms. split_and!; [done|..].
  - apply elem_of_app. right. by apply list_elem_of_here.
  - intros k' [Hin|[->|Hin]%elem_of_cons]%elem_of_app Hkind; [|done|].
    + by apply clean_fields_kinds in Hin.
    + by apply validate_constraints_kinds in Hin.
Qed.

Lemma first_failure_Some d c a :
  (d = None ∨ c = None) ∨ d = c ∨ (a = None ∨ ∃ v, a = Some v ∧ v ≤ 0) →
  ∃ k, first_failure d c a = Some k
       ∧ ((d = None ∨ c = None) → k = MissingAccount)
       ∧ (d ≠ None → c ≠ None → d = c → k = SameAccount)
       ∧ (d ≠ None → c ≠ None → d ≠ c → k = NonPositiveAmount).
Proof.
  intros H. unfold first_failure.
  case_bool_decide as Hm.
  { exists MissingAccount. split_and!; try done; intros; tauto. }
  case_bool_decide as Hs.
  { exists SameAccount. split_and!; done. }
  destruct H as [H|[H|H]]; try done.
  exists NonPositiveAmount.
  destruct a as [v|].
  - destruct H as [H|(v' & [= <-] & Hv)]; [done|].
    rewrite bool_decide_eq_true_2 by done. split_and!; try done; intros; tauto.
  - split_and!; try done; intros; tauto.
Qed.

(** C7. [Transaction.objects.create] with an account reference missing,
    with the same account on both legs, or with an amount that is missing
    or not strictly positive raises [ValidationError] and leaves the
    database exactly as it was: no row is stored, no balance changes.  The
    error carries the message of the first precondition that [clean] finds
    violated, and of the three no other: MissingAccount when a reference is
    missing; SameAccount when both are present and equal; NonPositiveAmount
    when they are present and distinct. *)
Theorem create_rejects_invalid
    (debit credit : option nat) (amount : option Z)
    (description : Transaction.Description) (reversal_of : option nat) (db : DB) :
  (debit = None ∨ credit = None) ∨ debit = credit
  ∨ (amount = None ∨ ∃ v, amount = Some v ∧ v ≤ 0) →
  ∃ kind messages,
    Transaction_objects_create debit credit amount description reversal_of (tt, db)
    = (inl (ValidationError messages), (tt, db))
    ∧ kind ∈ messages
    ∧ (∀ k, k ∈ messages → k ∈ [MissingAccount; SameAccount; NonPositiveAmount] → k = kind)
    ∧ ((debit = None ∨ credit = None) → kind = MissingAccount)
    ∧ (debit ≠ None → credit ≠ None → debit = credit → kind = SameAccount)
    ∧ (debit ≠ None → credit ≠ None → debit ≠ credit → kind = NonPositiveAmount).
Proof.
  intros H. destruct (first_failure_Some _ _ _ H) as (kind & Hk & H1 & H2 & H3).
  destruct (save_rejects None
              (Transaction.mk None debit credit amount description false reversal_of false)
              db kind Hk) as (ms & Hsave & Hin & Honly).
  exists kind, ms. split_and!; try done.
  unfold Transaction_objects_create. run. by rewrite Hsave.
Qed.

Lemma create_rejects_invalid_witness :
  ∃ kind messages,
    Transaction_objects_create (Some 1%nat) (Some 1%nat) (Some 5000)
                               (Transaction.Text "") None (tt, Scenario.ledger)
    = (inl (ValidationError messages), (tt, Scenario.ledger))
    ∧ kind ∈ messages
    ∧ (∀ k, k ∈ messages → k ∈ [MissingAccount; SameAccount; NonPositiveAmount] → k = kind)
    ∧ ((Some 1%nat = None ∨ Some 1%nat = None) → kind = MissingAccount)
    ∧ (Some 1%nat ≠ None → Some 1%nat ≠ None → Some 1%nat = Some 1%nat → kind = SameAccount)
    ∧ (Some 1%nat ≠ None → Some 1%nat ≠ None → Some 1%nat ≠ Some 1%nat
       → kind = NonPositiveAmount).
Proof.
  apply (create_rejects_invalid (Some 1%nat) (Some 1%nat) (Some 5000)
           (Transaction.Text "") None Scenario.ledger).
  right. left. reflexivity.
Defined.

(** ** C8: what cannot be annulled *)

(** C8. [annul] on a transaction whose [is_annulled] is true, or whose
    [reversal_of] is set, raises [ValidationError] and changes nothing:
    neither the instance (no flag), nor the database (no new row, no
    balance).  The message is AlreadyAnnulled when [is_annulled] is true,
    and CannotAnnulAReversal when it is false and [reversal_of] is set. *)
Theorem annul_rejects self db :
  Transaction.is_annulled self = true ∨ Transaction.reversal_of_id self ≠ None →
  ∃ kind,
    annul (self, db) = (inl (ValidationError [kind]), (self, db))
    ∧ (Transaction.is_annulled self = true → kind = AlreadyAnnulled)
    ∧ (Transaction.is_annulled self = false → kind = CannotAnnulAReversal).
Proof.
  intros H. rewrite annul_eq.
  destruct (Transaction.is_annulled self) eqn:Han.
  - exists AlreadyAnnulled. done.
  - destruct H as [H|H]; [done|].
    rewrite bool_decide_eq_true_2 by done.
    exists CannotAnnulAReversal. done.
Qed.

Lemma annul_rejects_witness :
  ∃ reversal,
    Scenario.annulled.1 = inr reversal
    ∧ Transaction.reversal_of_id reversal ≠ None
    ∧ ∃ kind,
        annul (reversal, Scenario.annulled.2.2)
        = (inl (ValidationError [kind]), (reversal, Scenario.annulled.2.2))
        ∧ (Transaction.is_annulled reversal = true → kind = AlreadyAnnulled)
        ∧ (Transaction.is_annulled reversal = false → kind = CannotAnnulAReversal).
Proof.
  exists (Transaction.mk (Some 2%nat) (Some 2%nat) (Some 1%nat) (Some 10000)
            (Transaction.Storno (Some 1%nat)) false (Some 1%nat) false).
  split; [by vm_compute|]. split; [done|].
  apply (annul_rejects _ Scenario.annulled.2.2).
  right. done.
Defined.

(** ** C9: the account-number loop *)

Lemma generate_from_collisions fuel rnd i db :
  (∀ j, (i ≤ j < i + fuel)%nat → collides rnd db j) →
  generate_from fuel rnd i db = None.
Proof.
  revert i. induction fuel as [|fuel IH]; intros i Hall; simpl; [done|].
  rewrite (Hall i) by lia. simpl. apply IH. intros j Hj. apply Hall. lia.
Qed.

Lemma generate_from_first_free n fuel rnd i db :
  (∀ j, (i ≤ j < i + n)%nat → collides rnd db j) →
  ¬ collides rnd db (i + n) →
  (n < fuel)%nat →
  generate_from fuel rnd i db = Some (draw rnd (i + n)).
Proof.
  revert fuel i. induction n as [|n IH]; intros fuel i Hall Hfree Hfuel.
  - destruct fuel as [|fuel]; [lia|]. simpl. rewrite Nat.add_0_r in Hfree.
    unfold collides in Hfree. apply not_true_is_false in Hfree. rewrite Hfree. simpl.
    by rewrite Nat.add_0_r.
  - destruct fuel as [|fuel]; [lia|]. simpl.
    rewrite (Hall i) by lia. simpl.
    replace (i + S n)%nat with (S i + n)%nat in * by lia.
    apply IH; [|done|lia]. intros j Hj. apply Hall. lia.
Qed.

Lemma draw_zeros i : draw Scenario.zeros i = "0000000000".
Proof. reflexivity. Qed.

(** C9, as stated, fails: the loop has no bound on its attempts.  With a
    generator that keeps drawing a number already in use, no number of
    rounds makes it return. *)
Lemma account_number_loop_unbounded :
  ¬ ∃ fuel num,
      _generate_account_number fuel Scenario.zeros Scenario.taken = Some num.
Proof.
  intros (fuel & num & H). unfold _generate_account_number in H.
  rewrite generate_from_collisions in H; [done|].
  intros j _. unfold collides. rewrite draw_zeros. by vm_compute.
Qed.

(** C9, amended.  The loop of [_generate_account_number] has no
    max-attempts guard; it stops at the first draw that is not in use.  If
    the first [n] draws collide and the next one is free, it returns that
    one, in round [n + 1] (run for fewer rounds it has not returned); if
    every draw collides it never returns. *)
Theorem account_number_loop (rnd : nat → nat) (db : DB) :
  (∀ n,
     (∀ i, (i < n)%nat → collides rnd db i) →
     ¬ collides rnd db n →
     ∀ fuel,
       _generate_account_number fuel rnd db
       = if decide (n < fuel)%nat then Some (draw rnd n) else None)
  ∧ ((∀ i, collides rnd db i) →
     ∀ fuel, _generate_account_number fuel rnd db = None).
Proof.
  unfold _generate_account_number. split.
  - intros n Hall Hfree fuel. case_decide.
    + apply (generate_from_first_free n fuel rnd 0 db); [|done|done].
      intros j Hj. apply Hall. lia.
    + apply generate_from_collisions. intros j Hj. apply Hall. lia.
  - intros Hall fuel. apply generate_from_collisions. intros j _. apply Hall.
Qed.

Lemma account_number_loop_witness :
  _generate_account_number 1 Scenario.retry Scenario.taken = None
  ∧ _generate_account_number 2 Scenario.retry Scenario.taken = Some "1111111111"
  ∧ ∀ fuel, _generate_account_number fuel Scenario.zeros Scenario.taken = None.
Proof.
  assert (H0 : ∀ i, (i < 1)%nat → collides Scenario.retry Scenario.taken i).
  { intros i Hi. assert (i = 0%nat) as -> by lia. by vm_compute. }
  assert (H1 : ¬ collides Scenario.retry Scenario.taken 1).
  { by vm_compute. }
  split; [|split].
  - apply (proj1 (account_number_loop Scenario.retry Scenario.taken) 1%nat H0 H1 1%nat).
  - apply (proj1 (account_number_loop Scenario.retry Scenario.taken) 1%nat H0 H1 2%nat).
  - apply (proj2 (account_number_loop Scenario.zeros Scenario.taken)).
    intros i. unfold collides. rewrite draw_zeros. by vm_compute.
Defined.

(** ** C10: every stored transaction is valid *)

Lemma not_posting_valid self :
  ¬ posting_valid self →
  ∃ k, first_failure (Transaction.debit_account_id self)
         (Transaction.credit_account_id self) (Transaction.amount self) = Some k.
Proof.
  intros Hn. destruct (first_failure _ _ _) as [k|] eqn:Hf; [by eauto|].
  apply first_failure_None in Hf. done.
Qed.

(** C10, as stated, fails: a [save] revalidates the instance, not the row
    it writes.  The valid row (debit account 1, credit account 2, 100.00)
    is loaded, its accounts are changed to 2 and 3 in memory, and only the
    debit account is saved: the instance is valid, [save] succeeds, and the
    stored row has account 2 on both legs. *)
Lemma partial_save_stores_same_accounts :
  let out := save (Some [Transaction.debit_account])
                  (Scenario.moved, Scenario.ledger_three) in
  rows_valid Scenario.ledger_three
  ∧ posting_valid Scenario.moved
  ∧ out.1 = inr tt
  ∧ (∃ row, transactions out.2.2 !! 1%nat = Some row
       ∧ Transaction.debit_account_id row = Some 2%nat
       ∧ Transaction.credit_account_id row = Some 2%nat)
  ∧ ¬ rows_valid out.2.2.
Proof.
  assert (transactions (save (Some [Transaction.debit_account])
                             (Scenario.moved, Scenario.ledger_three)).2.2 !! 1%nat
          = Some (Transaction.mk (Some 1%nat) (Some 2%nat) (Some 2%nat) (Some 10000)
                    (Transaction.Text "") false None false)) as Hrow
    by by vm_compute.
  simpl. split_and!.
  - intros k row H. unfold Scenario.ledger_three in H. simpl in H.
    apply lookup_singleton_Some in H as [<- <-].
    exists 1%nat, 2%nat, 10000. done.
  - exists 2%nat, 3%nat, 10000. done.
  - by vm_compute.
  - eexists. split; [exact Hrow|done].
  - intros Hvalid. destruct (Hvalid _ _ Hrow) as (d & c & a & Hd & Hc & Hne & _).
    simpl in Hd, Hc. congruence.
Qed.

(** C10, amended.  [clean] accepts exactly the records with both accounts
    present and distinct and a strictly positive amount, and every [save]
    runs it first, whatever [update_fields] is: an instance that fails it
    is refused with [ValidationError] and nothing is written, also when
    only a flag was to be updated.  Hence, if every stored transaction is
    valid, it is still so after a [save] of the whole record or of columns
    other than the two accounts and the amount, after
    [Transaction.objects.create], [apply_balances], [annul] and the admin
    action.  The storage itself, reached without [clean], never comes to
    hold a row whose amount is not strictly positive. *)
Theorem stored_transactions_stay_valid :
  (∀ self db, (clean (self, db)).1 = inr tt ↔ posting_valid self)
  ∧ (∀ update_fields self db,
       ¬ posting_valid self →
       ∃ messages,
         save update_fields (self, db) = (inl (ValidationError messages), (self, db)))
  ∧ (∀ update_fields self db,
       whole_or_flags update_fields → rows_valid db →
       rows_valid (save update_fields (self, db)).2.2)
  ∧ (∀ debit credit amount description reversal_of db,
       rows_valid db →
       rows_valid (Transaction_objects_create debit credit amount description
                     reversal_of (tt, db)).2.2)
  ∧ (∀ self db, rows_valid db → rows_valid (apply_balances (self, db)).2.2)
  ∧ (∀ self db, rows_valid db → rows_valid (annul (self, db)).2.2)
  ∧ (∀ queryset db, rows_valid db → rows_valid (make_annulled queryset db).2)
  ∧ (∀ update_fields self db,
       amounts_positive db →
       amounts_positive (Model_save update_fields (self, db)).2.2).
Proof.
  split_and!.
  - apply clean_passes_iff.
  - intros uf self db Hn. destruct (not_posting_valid self Hn) as (k & Hk).
    destruct (save_rejects uf self db k Hk) as (ms & Hs & _). eauto.
  - apply save_rows_valid.
  - intros d c a desc rev db Hdb. unfold Transaction_objects_create. run.
    match goal with |- context [save None (?o, db)] =>
      pose proof (save_rows_valid None o db I Hdb) as H;
      destruct (save None (o, db)) as [[e|[]] [o' db']]
    end; exact H.
  - apply apply_balances_rows_valid.
  - apply annul_rows_valid.
  - intros queryset db Hdb. rewrite make_annulled_db.
    by apply make_annulled_loop_rows_valid.
  - apply Model_save_amounts_positive.
Qed.

Lemma ledger_pending_rows_valid : rows_valid Scenario.ledger_pending.
Proof.
  intros k row H. unfold Scenario.ledger_pending in H. simpl in H.
  apply lookup_singleton_Some in H as [<- <-].
  exists 1%nat, 2%nat, 10000. done.
Qed.

Lemma stored_transactions_stay_valid_witness :
  (∃ messages,
     save (Some [Transaction.is_annulled_field])
          (Scenario.same_legs, Scenario.ledger_pending)
     = (inl (ValidationError messages), (Scenario.same_legs, Scenario.ledger_pending)))
  ∧ rows_valid (save (Some [Transaction.is_annulled_field])
                     (Transaction.set_is_annulled true Scenario.pending,
                      Scenario.ledger_pending)).2.2
  ∧ rows_valid (annul (Scenario.pending, Scenario.ledger_pending)).2.2.
Proof.
  split; [|split].
  - apply (proj1 (proj2 stored_transactions_stay_valid)).
    intros (d & c & a & [= <-] & [= <-] & Hne & _). done.
  - apply (proj1 (proj2 (proj2 stored_transactions_stay_valid))).
    + intros f Hf. apply list_elem_of_singleton in Hf as ->. done.
    + apply ledger_pending_rows_valid.
  - apply (proj1 (proj2 (proj2 (proj2 (proj2 (proj2 stored_transactions_stay_valid)))))).
    apply ledger_pending_rows_valid.
Defined.

(** * Further properties *)

(** ** Lookups in a posted account table *)

Lemma post_accounts_debit d c amt da ca table :
  d ≠ c →
  post_accounts d c amt da ca table !! d
  = Some (Account.set_balance
            (Account.balance da + computeDelta (Account.type da) Debit amt) da).
Proof.
  intros Hne. unfold post_accounts.
  rewrite lookup_insert_ne by done. by rewrite lookup_insert_eq.
Qed.

Lemma post_accounts_credit d c amt da ca table :
  d ≠ c →
  post_accounts d c amt da ca table !! c
  = Some (Account.set_balance
            (Account.balance ca + computeDelta (Account.type ca) Credit amt) ca).
Proof.
  intros Hne. unfold post_accounts.
  rewrite lookup_insert_eq. by rewrite decide_False.
Qed.

Lemma post_accounts_other d c amt da ca table k :
  k ≠ d → k ≠ c → post_accounts d c amt da ca table !! k = table !! k.
Proof.
  intros Hd Hc. unfold post_accounts.
  rewrite !lookup_insert_ne by done. done.
Qed.

Lemma post_accounts_is_Some d c amt da ca table k :
  is_Some (table !! k) → is_Some (post_accounts d c amt da ca table !! k).
Proof.
  intros Hk. unfold post_accounts.
  rewrite !lookup_insert. repeat case_decide; eauto.
Qed.

(** Whether the storage accepts a row depends on the tables only through
    the keys they hold. *)
Lemma check_reference_mono {V W} field k (t : gmap nat V) (t' : gmap nat W) :
  (∀ j, is_Some (t !! j) → is_Some (t' !! j)) →
  check_reference field k t = [] → check_reference field k t' = [].
Proof.
  intros Hsub. unfold check_reference. destruct k as [k|]; [|done].
  destruct (t !! k) as [v|] eqn:Hk; [|done]. intros _.
  destruct (Hsub k) as [w ->]; eauto.
Qed.

Lemma row_accepted_mono row db db' :
  (∀ j, is_Some (accounts db !! j) → is_Some (accounts db' !! j)) →
  (∀ j, is_Some (transactions db !! j) → is_Some (transactions db' !! j)) →
  row_accepted row db = true → row_accepted row db' = true.
Proof.
  intros Ha Ht. unfold row_accepted.
  rewrite !andb_true_iff, !bool_decide_eq_true.
  intros [[[? ?] ?] ?]. split_and!; eauto using check_reference_mono.
Qed.

Lemma row_accepted_flags row row' db :
  Transaction.debit_account_id row' = Transaction.debit_account_id row →
  Transaction.credit_account_id row' = Transaction.credit_account_id row →
  Transaction.amount row' = Transaction.amount row →
  Transaction.reversal_of_id row' = Transaction.reversal_of_id row →
  row_accepted row' db = row_accepted row db.
Proof. unfold row_accepted. by intros -> -> -> ->. Qed.

(** ** Creation *)

Lemma first_failure_valid d c a :
  d ≠ c → 0 < a → first_failure (Some d) (Some c) (Some a) = None.
Proof. intros Hne Hpos. apply first_failure_None. exists d, c, a. done. Qed.

Lemma full_clean_ok self db :
  first_failure (Transaction.debit_account_id self) (Transaction.credit_account_id self)
                (Transaction.amount self) = None →
  clean_fields self db = [] →
  full_clean (self, db) = (inr tt, (self, db)).
Proof.
  intros Hf Hc. rewrite full_clean_eq, Hf, Hc.
  apply first_failure_None in Hf as (d & c & a & _ & _ & _ & Ha & Hpos).
  unfold validate_constraints. rewrite Ha.
  rewrite (bool_decide_eq_false_2 (a ≤ 0)) by lia.
  by rewrite andb_false_r.
Qed.

Lemma clean_fields_ok self db d c a :
  Transaction.debit_account_id self = Some d →
  Transaction.credit_account_id self = Some c →
  Transaction.amount self = Some a →
  fits_decimal a = true →
  Transaction.description_fits (Transaction.description self) = true →
  is_Some (accounts db !! d) → is_Some (accounts db !! c) →
  check_reference "reversal_of" (Transaction.reversal_of_id self) (transactions db) = [] →
  clean_fields self db = [].
Proof.
  intros Hd Hc Ha Hfa Hfd [da Hda] [ca Hca] Hr. unfold clean_fields.
  rewrite Hd, Hc, Ha, Hr, Hfd. simpl. by rewrite Hda, Hca, Hfa.
Qed.

Lemma row_accepted_ok row db d c a :
  Transaction.debit_account_id row = Some d →
  Transaction.credit_account_id row = Some c →
  Transaction.amount row = Some a → 0 < a →
  is_Some (accounts db !! d) → is_Some (accounts db !! c) →
  check_reference "reversal_of" (Transaction.reversal_of_id row) (transactions db) = [] →
  row_accepted row db = true.
Proof.
  intros Hd Hc Ha Hpos [da Hda] [ca Hca] Hr. unfold row_accepted.
  rewrite Hd, Hc, Ha, Hr. simpl. rewrite Hda, Hca. simpl.
  by rewrite bool_decide_eq_true_2.
Qed.

Lemma create_runs d c amt description db da ca :
  d ≠ c → 0 < amt →
  fits_decimal amt = true →
  Transaction.description_fits description = true →
  accounts db !! d = Some da → accounts db !! c = Some ca →
  fits_decimal (Account.balance da + computeDelta (Account.type da) Debit amt) = true →
  fits_decimal (Account.balance ca + computeDelta (Account.type ca) Credit amt) = true →
  transactions db !! next_pk db = None →
  let n := next_pk db in
  let created := Transaction.mk (Some n) (Some d) (Some c) (Some amt) description
                                false None true in
  Transaction_objects_create (Some d) (Some c) (Some amt) description None (tt, db)
  = (inr created,
     (tt, mkDB (post_accounts d c amt da ca (accounts db))
               (<[n := created]> (transactions db))
               (S n)
               (locked db ++ [d; c]))).
Proof.
  intros Hne Hpos Hfa Hfd Hda Hca Hfda Hfca Hfree. simpl.
  unfold Transaction_objects_create. run.
  rewrite save_eq.
  rewrite full_clean_ok;
    [|by apply first_failure_valid|by eapply clean_fields_ok].
  simpl. unfold Model_save, insert_row, amount_prepared. run. rewrite Hfa. simpl.
  rewrite Hfree.
  rewrite row_accepted_ok with (d := d) (c := c) (a := amt) by (simpl; eauto).
  simpl.
  rewrite apply_balances_eq. simpl. rewrite Hda, Hca, Hfda, Hfca. simpl.
  rewrite lookup_insert_eq.
  rewrite row_accepted_ok with (d := d) (c := c) (a := amt);
    [|done|done|done|done| | |done].
  - simpl. unfold set_transactions, set_accounts, add_lock. simpl.
    rewrite insert_insert_eq, <- app_assoc. simpl.
    replace (next_pk db `max` S (next_pk db))%nat with (S (next_pk db)) by lia.
    reflexivity.
  - simpl. apply post_accounts_is_Some. eauto.
  - simpl. apply post_accounts_is_Some. eauto.
Qed.

(** X1. [Transaction.objects.create] of an ordinary transaction between two
    distinct existing accounts succeeds when the amount is strictly positive
    and fits [max_digits=18, decimal_places=2], the description fits
    [max_length=255], both new balances fit the balance column, and the next
    key is free: the instance it returns has the next key and [is_applied]
    true, that same record is the stored row, the key counter advances by
    one, both legs are posted, and the debit account was locked before the
    credit account. *)
Theorem create_succeeds d c amt description db da ca :
  d ≠ c → 0 < amt →
  fits_decimal amt = true →
  Transaction.description_fits description = true →
  accounts db !! d = Some da → accounts db !! c = Some ca →
  fits_decimal (Account.balance da + computeDelta (Account.type da) Debit amt) = true →
  fits_decimal (Account.balance ca + computeDelta (Account.type ca) Credit amt) = true →
  transactions db !! next_pk db = None →
  let n := next_pk db in
  let created := Transaction.mk (Some n) (Some d) (Some c) (Some amt) description
                                false None true in
  Transaction_objects_create (Some d) (Some c) (Some amt) description None (tt, db)
  = (inr created,
     (tt, mkDB (post_accounts d c amt da ca (accounts db))
               (<[n := created]> (transactions db))
               (S n)
               (locked db ++ [d; c]))).
Proof. apply create_runs. Qed.

Lemma create_succeeds_witness :
  Transaction_objects_create (Some 1%nat) (Some 2%nat) (Some 10000)
                             (Transaction.Text "") None (tt, Scenario.ledger)
  = (inr Scenario.original,
     (tt, mkDB (post_accounts 1 2 10000 Scenario.A Scenario.B (accounts Scenario.ledger))
               (<[1%nat := Scenario.original]> (transactions Scenario.ledger))
               2
               (locked Scenario.ledger ++ [1%nat; 2%nat]))).
Proof.
  apply (create_succeeds 1 2 10000 (Transaction.Text "") Scenario.ledger
           Scenario.A Scenario.B).
  - done.
  - lia.
  - reflexivity.
  - reflexivity.
  - reflexivity.
  - reflexivity.
  - reflexivity.
  - reflexivity.
  - reflexivity.
Defined.

(** ** [apply_balances] when it raises *)

(** X2. When [apply_balances] raises, the account table, the transaction
    table and the key counter are those before the call: the balance writes
    made inside [transaction.atomic()] are undone.  What it raises is one of
    DoesNotExist, TypeError, InvalidOperation (a new balance that does not
    fit its column), ValueError, DatabaseError, IntegrityError. *)
Theorem apply_balances_all_or_nothing self db e :
  (apply_balances (self, db)).1 = inl e →
  accounts (apply_balances (self, db)).2.2 = accounts db
  ∧ transactions (apply_balances (self, db)).2.2 = transactions db
  ∧ next_pk (apply_balances (self, db)).2.2 = next_pk db
  ∧ e ∈ [DoesNotExist; TypeError; InvalidOperation; ValueError; DatabaseError;
         IntegrityError].
Proof.
  intros He. pose proof (apply_balances_tables self db) as Ht. simpl in Ht.
  destruct Ht as (H1 & H2 & H3); [by eauto|]. split_and!; try done.
  revert He. rewrite apply_balances_eq.
  repeat (case_match; simpl); intros [= <-]; rewrite !elem_of_cons; tauto.
Qed.

Lemma apply_balances_all_or_nothing_witness :
  accounts (apply_balances (Scenario.unsaved, Scenario.ledger)).2.2
  = accounts Scenario.ledger
  ∧ transactions (apply_balances (Scenario.unsaved, Scenario.ledger)).2.2
    = transactions Scenario.ledger
  ∧ next_pk (apply_balances (Scenario.unsaved, Scenario.ledger)).2.2
    = next_pk Scenario.ledger
  ∧ ValueError ∈ [DoesNotExist; TypeError; InvalidOperation; ValueError; DatabaseError;
                  IntegrityError].
Proof.
  apply (apply_balances_all_or_nothing Scenario.unsaved Scenario.ledger ValueError).
  by vm_compute.
Defined.

(** X3. [apply_balances] on an instance that was never saved (no primary
    key), whose two accounts exist and whose two new balances fit the
    balance column, raises ValueError when it comes to store the flag; the
    balance writes are rolled back, but the assignment
    [self.is_applied = True] stays on the instance.  A [save] of that
    instance (valid, amount and description within their fields' limits)
    then succeeds, stores the row with [is_applied] true, and posts
    nothing. *)
Theorem apply_balances_unsaved_then_save self db d c a da ca :
  Transaction.pk self = None →
  Transaction.is_applied self = false →
  Transaction.reversal_of_id self = None →
  Transaction.debit_account_id self = Some d →
  Transaction.credit_account_id self = Some c →
  Transaction.amount self = Some a →
  d ≠ c → 0 < a →
  fits_decimal a = true →
  Transaction.description_fits (Transaction.description self) = true →
  accounts db !! d = Some da → accounts db !! c = Some ca →
  fits_decimal (Account.balance da + computeDelta (Account.type da) Debit a) = true →
  fits_decimal (Account.balance ca + computeDelta (Account.type ca) Credit a) = true →
  transactions db !! next_pk db = None →
  let raised := apply_balances (self, db) in
  let saved := save None raised.2 in
  raised.1 = inl ValueError
  ∧ Transaction.is_applied raised.2.1 = true
  ∧ accounts raised.2.2 = accounts db
  ∧ transactions raised.2.2 = transactions db
  ∧ saved.1 = inr tt
  ∧ accounts saved.2.2 = accounts db
  ∧ transactions saved.2.2
    = <[next_pk db := Transaction.set_pk (Some (next_pk db))
                        (Transaction.set_is_applied true self)]> (transactions db).
Proof.
  intros Hpk Hna Hrev Hd Hc Ha Hne Hpos Hfa Hfd Hda Hca Hfda Hfca Hfree. simpl.
  rewrite apply_balances_eq, Hna, Hd, Hda, Hc, Hca, Ha. simpl.
  rewrite Hfda, Hfca, Hpk. simpl.
  split_and!; try done.
  all: rewrite save_eq.
  all: rewrite full_clean_ok;
    [|simpl; rewrite Hd, Hc, Ha; by apply first_failure_valid
     |eapply clean_fields_ok; simpl; eauto; by rewrite Hrev].
  all: simpl; unfold Model_save, insert_row, rollback, amount_prepared; run;
    rewrite ?Hpk; simpl; rewrite ?Ha, ?Hfa; simpl; rewrite Hfree.
  all: rewrite row_accepted_ok with (d := d) (c := c) (a := a);
    [|simpl; eauto..|simpl; by rewrite Hrev].
  all: simpl; rewrite ?Hpk, ?Hrev; simpl.
  all: done.
Qed.

Lemma apply_balances_unsaved_then_save_witness :
  (apply_balances (Scenario.unsaved, Scenario.ledger)).1 = inl ValueError
  ∧ Transaction.is_applied (apply_balances (Scenario.unsaved, Scenario.ledger)).2.1 = true
  ∧ accounts (apply_balances (Scenario.unsaved, Scenario.ledger)).2.2
    = accounts Scenario.ledger
  ∧ transactions (apply_balances (Scenario.unsaved, Scenario.ledger)).2.2
    = transactions Scenario.ledger
  ∧ (save None (apply_balances (Scenario.unsaved, Scenario.ledger)).2).1 = inr tt
  ∧ accounts (save None (apply_balances (Scenario.unsaved, Scenario.ledger)).2).2.2
    = accounts Scenario.ledger
  ∧ transactions (save None (apply_balances (Scenario.unsaved, Scenario.ledger)).2).2.2
    = <[next_pk Scenario.ledger :=
          Transaction.set_pk (Some (next_pk Scenario.ledger))
            (Transaction.set_is_applied true Scenario.unsaved)]>
        (transactions Scenario.ledger).
Proof.
  apply (apply_balances_unsaved_then_save Scenario.unsaved Scenario.ledger 1 2 10000
           Scenario.A Scenario.B);
    try reflexivity.
  - done.
Defined.

(** ** [apply_balances] when it succeeds *)

Lemma apply_balances_success self db s' :
  Transaction.is_applied self = false →
  apply_balances (self, db) = (inr tt, s') →
  ∃ d c amt da ca k row,
    Transaction.debit_account_id self = Some d
    ∧ Transaction.credit_account_id self = Some c
    ∧ Transaction.amount self = Some amt
    ∧ accounts db !! d = Some da ∧ accounts db !! c = Some ca
    ∧ Transaction.pk self = Some k ∧ transactions db !! k = Some row
    ∧ row_accepted (Transaction.set_is_applied true row)
        (set_accounts (post_accounts d c amt da ca (accounts db))
           (add_lock c (add_lock d db))) = true
    ∧ s' = (Transaction.set_is_applied true self,
            set_transactions
              (<[k := Transaction.set_is_applied true row]> (transactions db))
              (next_pk db)
              (set_accounts (post_accounts d c amt da ca (accounts db))
                 (add_lock c (add_lock d db)))).
Proof.
  intros Hna. rewrite apply_balances_eq, Hna.
  destruct (Transaction.debit_account_id self) as [d|]; [|done].
  destruct (accounts db !! d) as [da|] eqn:Hda; [|done].
  destruct (Transaction.credit_account_id self) as [c|]; [|done].
  destruct (accounts db !! c) as [ca|] eqn:Hca; [|done].
  destruct (Transaction.amount self) as [amt|]; [|done]. simpl.
  case_match eqn:Hfit; [done|].
  destruct (Transaction.pk self) as [k|]; [|done].
  destruct (transactions db !! k) as [row|] eqn:Hk; [|done].
  case_match eqn:Hacc; [|done]. intros [= <-].
  exists d, c, amt, da, ca, k, row. done.
Qed.

Lemma apply_balances_runs self db d c amt da ca k row :
  Transaction.is_applied self = false →
  Transaction.debit_account_id self = Some d →
  Transaction.credit_account_id self = Some c →
  Transaction.amount self = Some amt →
  accounts db !! d = Some da → accounts db !! c = Some ca →
  fits_decimal (Account.balance da + computeDelta (Account.type da) Debit amt) = true →
  fits_decimal (Account.balance ca + computeDelta (Account.type ca) Credit amt) = true →
  Transaction.pk self = Some k → transactions db !! k = Some row →
  row_accepted (Transaction.set_is_applied true row)
    (set_accounts (post_accounts d c amt da ca (accounts db))
       (add_lock c (add_lock d db))) = true →
  apply_balances (self, db)
  = (inr tt,
     (Transaction.set_is_applied true self,
      set_transactions
        (<[k := Transaction.set_is_applied true row]> (transactions db))
        (next_pk db)
        (set_accounts (post_accounts d c amt da ca (accounts db))
           (add_lock c (add_lock d db))))).
Proof.
  intros Hna Hd Hc Ha Hda Hca Hfda Hfca Hk Hrow Hacc.
  rewrite apply_balances_eq, Hna, Hd, Hda, Hc, Hca, Ha. simpl.
  by rewrite Hfda, Hfca, Hk, Hrow, Hacc.
Qed.

(** X4. [apply_balances] reads the flag of the instance it is called on,
    not the stored row.  Called once more on an instance that still holds
    [is_applied] false, after the row was applied, it posts both deltas a
    second time when the two balances that result fit the balance column;
    when one of them does not, it raises [decimal.InvalidOperation] and
    both tables stay as the first call left them. *)
Theorem apply_balances_from_stale_instance self db s1 :
  Transaction.is_applied self = false →
  Transaction.debit_account_id self ≠ Transaction.credit_account_id self →
  apply_balances (self, db) = (inr tt, s1) →
  ∃ d c amt da ca,
    Transaction.debit_account_id self = Some d
    ∧ Transaction.credit_account_id self = Some c
    ∧ Transaction.amount self = Some amt
    ∧ accounts db !! d = Some da ∧ accounts db !! c = Some ca
    ∧ posted_delta d db s1.2 = computeDelta (Account.type da) Debit amt
    ∧ posted_delta c db s1.2 = computeDelta (Account.type ca) Credit amt
    ∧ let again := apply_balances (self, s1.2) in
      if fits_decimal (Account.balance da + 2 * computeDelta (Account.type da) Debit amt)
         && fits_decimal (Account.balance ca + 2 * computeDelta (Account.type ca) Credit amt)
      then again.1 = inr tt
           ∧ posted_delta d db again.2.2 = 2 * computeDelta (Account.type da) Debit amt
           ∧ posted_delta c db again.2.2 = 2 * computeDelta (Account.type ca) Credit amt
      else again.1 = inl InvalidOperation
           ∧ accounts again.2.2 = accounts s1.2
           ∧ transactions again.2.2 = transactions s1.2.
Proof.
  intros Hna Hne Hrun.
  destruct (apply_balances_success self db s1 Hna Hrun)
    as (d & c & amt & da & ca & k & row & Hd & Hc & Ha & Hda & Hca & Hk & Hrow & Hacc & ->).
  assert (d ≠ c) as Hdc by congruence.
  set (da' := Account.set_balance
                (Account.balance da + computeDelta (Account.type da) Debit amt) da).
  set (ca' := Account.set_balance
                (Account.balance ca + computeDelta (Account.type ca) Credit amt) ca).
  set (db1 := set_transactions _ _ _).
  assert (accounts db1 !! d = Some da') as Hda' by by apply post_accounts_debit.
  assert (accounts db1 !! c = Some ca') as Hca' by by apply post_accounts_credit.
  assert (Account.balance da' + computeDelta (Account.type da') Debit amt
          = Account.balance da + 2 * computeDelta (Account.type da) Debit amt) as Hbd
    by (simpl; lia).
  assert (Account.balance ca' + computeDelta (Account.type ca') Credit amt
          = Account.balance ca + 2 * computeDelta (Account.type ca) Credit amt) as Hbc
    by (simpl; lia).
  exists d, c, amt, da, ca. split_and!; try done.
  - unfold posted_delta, balance_of. simpl in *. rewrite Hda', Hda. simpl. lia.
  - unfold posted_delta, balance_of. simpl in *. rewrite Hca', Hca. simpl. lia.
  - cbv zeta. change (_, db1).2 with db1.
    destruct (fits_decimal (Account.balance da + 2 * _)
              && fits_decimal (Account.balance ca + 2 * _)) eqn:Hfit.
    + apply andb_true_iff in Hfit as [Hfd Hfc].
      rewrite (apply_balances_runs self db1 d c amt da' ca' k
                 (Transaction.set_is_applied true row)); try done.
      * split; [done|]. unfold posted_delta, balance_of. simpl.
        rewrite post_accounts_debit, post_accounts_credit by done.
        rewrite Hda, Hca. simpl. lia.
      * by rewrite Hbd.
      * by rewrite Hbc.
      * simpl. by rewrite lookup_insert_eq.
      * eapply row_accepted_mono; [| |exact Hacc]; simpl.
        -- intros j Hj. by apply post_accounts_is_Some.
        -- intros j Hj. rewrite lookup_insert. case_decide; eauto.
    + rewrite apply_balances_eq, Hna, Hd, Hc, Ha, Hda', Hca'. cbv zeta.
      rewrite Hbd, Hbc.
      apply andb_false_iff in Hfit as [->| ->]; simpl; rewrite ?orb_true_r; done.
Qed.

Lemma apply_balances_from_stale_instance_witness :
  ∃ d c amt da ca,
    Transaction.debit_account_id Scenario.pending = Some d
    ∧ Transaction.credit_account_id Scenario.pending = Some c
    ∧ Transaction.amount Scenario.pending = Some amt
    ∧ accounts Scenario.ledger_pending !! d = Some da
    ∧ accounts Scenario.ledger_pending !! c = Some ca
    ∧ posted_delta d Scenario.ledger_pending Scenario.applied.2.2
      = computeDelta (Account.type da) Debit amt
    ∧ posted_delta c Scenario.ledger_pending Scenario.applied.2.2
      = computeDelta (Account.type ca) Credit amt
    ∧ let again := apply_balances (Scenario.pending, Scenario.applied.2.2) in
      if fits_decimal (Account.balance da + 2 * computeDelta (Account.type da) Debit amt)
         && fits_decimal (Account.balance ca + 2 * computeDelta (Account.type ca) Credit amt)
      then again.1 = inr tt
           ∧ posted_delta d Scenario.ledger_pending again.2.2
             = 2 * computeDelta (Account.type da) Debit amt
           ∧ posted_delta c Scenario.ledger_pending again.2.2
             = 2 * computeDelta (Account.type ca) Credit amt
      else again.1 = inl InvalidOperation
           ∧ accounts again.2.2 = accounts Scenario.applied.2.2
           ∧ transactions again.2.2 = transactions Scenario.applied.2.2.
Proof.
  apply (apply_balances_from_stale_instance Scenario.pending Scenario.ledger_pending
           Scenario.applied.2).
  - reflexivity.
  - done.
  - by vm_compute.
Defined.

(** ** A transaction and its mirror image *)

Lemma set_balance_same (a : Account.t) b :
  b = Account.balance a → Account.set_balance b a = a.
Proof. intros ->. by destruct a. Qed.

Lemma computeDelta_opposite ty amt :
  computeDelta ty Debit amt + computeDelta ty Credit amt = 0.
Proof. destruct ty; simpl; lia. Qed.

(** X5. Applying a transaction, and then a transaction with the two
    accounts in the opposite roles and the same amount, leaves the account
    table exactly as it was before the first. *)
Theorem swapped_legs_cancel t r db s1 s2 d c amt :
  Transaction.is_applied t = false →
  Transaction.is_applied r = false →
  Transaction.debit_account_id t = Some d →
  Transaction.credit_account_id t = Some c →
  Transaction.amount t = Some amt →
  Transaction.debit_account_id r = Some c →
  Transaction.credit_account_id r = Some d →
  Transaction.amount r = Some amt →
  d ≠ c →
  apply_balances (t, db) = (inr tt, s1) →
  apply_balances (r, s1.2) = (inr tt, s2) →
  accounts s2.2 = accounts db.
Proof.
  intros Hnt Hnr Hd Hc Ha Hrd Hrc Hra Hne Hrun1 Hrun2.
  destruct (apply_balances_success t db s1 Hnt Hrun1)
    as (d1 & c1 & a1 & da & ca & k & row & Hd1 & Hc1 & Ha1 & Hda & Hca & _ & _ & _ & ->).
  assert (d1 = d) as -> by congruence. assert (c1 = c) as -> by congruence.
  assert (a1 = amt) as -> by congruence.
  destruct (apply_balances_success r _ s2 Hnr Hrun2)
    as (d2 & c2 & a2 & ca' & da' & k2 & row2 & Hd2 & Hc2 & Ha2 & Hca' & Hda' & _ & _ & _ & ->).
  assert (d2 = c) as -> by congruence. assert (c2 = d) as -> by congruence.
  assert (a2 = amt) as -> by congruence.
  simpl in *.
  rewrite post_accounts_credit in Hca' by done.
  rewrite post_accounts_debit in Hda' by done.
  injection Hca' as <-. injection Hda' as <-.
  assert (c ≠ d) as Hcd by congruence.
  apply map_eq. intros j.
  destruct (decide (j = d)) as [->|Hjd].
  - rewrite post_accounts_credit by done. rewrite Hda. f_equal.
    change (Account.set_balance ?b (Account.set_balance ?b' ?a))
      with (Account.set_balance b a).
    apply set_balance_same. simpl.
    pose proof (computeDelta_opposite (Account.type da) amt). lia.
  - destruct (decide (j = c)) as [->|Hjc].
    + rewrite post_accounts_debit by done. rewrite Hca. f_equal.
      change (Account.set_balance ?b (Account.set_balance ?b' ?a))
        with (Account.set_balance b a).
      apply set_balance_same. simpl.
      pose proof (computeDelta_opposite (Account.type ca) amt). lia.
    + rewrite !post_accounts_other by done. done.
Qed.

Lemma swapped_legs_cancel_witness :
  accounts
    (apply_balances
       (Scenario.reversal,
        (apply_balances (Scenario.pending, Scenario.ledger_with_reversal)).2.2)).2.2
  = accounts Scenario.ledger_with_reversal.
Proof.
  apply (swapped_legs_cancel Scenario.pending Scenario.reversal
           Scenario.ledger_with_reversal
           (apply_balances (Scenario.pending, Scenario.ledger_with_reversal)).2
           (apply_balances
              (Scenario.reversal,
               (apply_balances (Scenario.pending, Scenario.ledger_with_reversal)).2.2)).2
           1 2 10000); first [reflexivity | done | by vm_compute].
Defined.

(** ** Assets minus liabilities *)

Lemma net_position_insert table k a a' :
  table !! k = Some a →
  net_position (<[k := a']> table) = net_position table - signed_balance a + signed_balance a'.
Proof.
  intros Hk. unfold net_position.
  rewrite (map_fold_delete_L _ _ k a table); [|intros; lia|done].
  rewrite <- insert_delete_eq.
  rewrite map_fold_insert_L; [lia|intros; lia|apply lookup_delete_eq].
Qed.

Lemma signed_balance_debit a amt :
  signed_balance
    (Account.set_balance (Account.balance a + computeDelta (Account.type a) Debit amt) a)
  = signed_balance a + amt.
Proof. unfold signed_balance. simpl. destruct (Account.type a); simpl; lia. Qed.

Lemma signed_balance_credit a amt :
  signed_balance
    (Account.set_balance (Account.balance a + computeDelta (Account.type a) Credit amt) a)
  = signed_balance a - amt.
Proof. unfold signed_balance. simpl. destruct (Account.type a); simpl; lia. Qed.

Lemma net_position_post d c amt da ca table :
  d ≠ c → table !! d = Some da → table !! c = Some ca →
  net_position (post_accounts d c amt da ca table) = net_position table.
Proof.
  intros Hne Hda Hca. unfold post_accounts. rewrite decide_False by done.
  rewrite (net_position_insert _ c ca) by by rewrite lookup_insert_ne.
  rewrite (net_position_insert _ d da) by done.
  rewrite signed_balance_debit, signed_balance_credit. lia.
Qed.

Lemma apply_balances_net_position self db :
  Transaction.debit_account_id self ≠ Transaction.credit_account_id self →
  net_position (accounts (apply_balances (self, db)).2.2) = net_position (accounts db).
Proof.
  intros Hne.
  destruct (Transaction.is_applied self) eqn:Hna.
  { by rewrite apply_balances_applied. }
  destruct (apply_balances (self, db)) as [[e|[]] s'] eqn:Hrun.
  - pose proof (apply_balances_tables self db) as Ht. rewrite Hrun in Ht. simpl in *.
    destruct Ht as (-> & _); eauto.
  - destruct (apply_balances_success self db s' Hna Hrun)
      as (d & c & amt & da & ca & k & row & Hd & Hc & Ha & Hda & Hca & _ & _ & _ & ->).
    simpl. apply net_position_post; congruence.
Qed.

Lemma save_net_position uf self db :
  net_position (accounts (save uf (self, db)).2.2) = net_position (accounts db).
Proof.
  rewrite save_eq.
  destruct (full_clean (self, db)).1 as [e|[]] eqn:Hclean; simpl; [done|].
  apply full_clean_passes in Hclean as (d & c & a & Hd & Hc & Hne & _).
  pose proof (Model_save_cases uf self db) as (Hacc & _ & _ & Hself & _).
  destruct (Model_save uf (self, db)) as [[e|[]] [self1 db1]]; simpl in *; [by rewrite Hacc|].
  case_match; simpl; [|by rewrite Hacc].
  rewrite apply_balances_net_position; [by rewrite Hacc|].
  destruct Hself as [->|(_ & _ & k & ->)]; simpl; rewrite Hd, Hc; congruence.
Qed.

(** X6. Assets minus liabilities: the sum of the balances of the Asset and
    Both accounts minus the sum of the balances of the Liability accounts is
    the same before and after [apply_balances] on a transaction whose two
    accounts differ, and before and after every [save],
    [Transaction.objects.create], [annul] and [make_annulled]. *)
Theorem net_position_preserved :
  (∀ self db,
     Transaction.debit_account_id self ≠ Transaction.credit_account_id self →
     net_position (accounts (apply_balances (self, db)).2.2) = net_position (accounts db))
  ∧ (∀ update_fields self db,
       net_position (accounts (save update_fields (self, db)).2.2)
       = net_position (accounts db))
  ∧ (∀ debit credit amount description reversal_of db,
       net_position
         (accounts (Transaction_objects_create debit credit amount description
                      reversal_of (tt, db)).2.2)
       = net_position (accounts db))
  ∧ (∀ self db,
       net_position (accounts (annul (self, db)).2.2) = net_position (accounts db))
  ∧ (∀ queryset db,
       net_position (accounts (make_annulled queryset db).2) = net_position (accounts db)).
Proof.
  split_and!.
  - apply apply_balances_net_position.
  - apply save_net_position.
  - intros d c a desc rev db. unfold Transaction_objects_create. run.
    match goal with |- context [save None (?o, db)] =>
      pose proof (save_net_position None o db) as H;
      destruct (save None (o, db)) as [[e|[]] [o' db']]
    end; exact H.
  - intros self db. by rewrite annul_accounts.
  - intros queryset db. by rewrite make_annulled_db, make_annulled_loop_accounts.
Qed.

Lemma net_position_preserved_witness :
  net_position (accounts Scenario.applied.2.2) = net_position (accounts Scenario.ledger_pending).
Proof.
  apply (proj1 net_position_preserved Scenario.pending Scenario.ledger_pending).
  done.
Defined.

(** ** [annul] when it succeeds *)

(** X7. [annul] on a stored transaction that is neither annulled nor a
    reversal, whose record is valid (amount and description within their
    fields' limits too) and whose stored row the storage accepts, succeeds
    when the next key is free: the instance and the
    stored row get [is_annulled] true, and under the next key a reversal is
    stored and returned, with the legs swapped, the same amount, the
    generated description, [reversal_of] the original, and [is_applied]
    false.  No account changes and no lock is taken. *)
Theorem annul_succeeds self db k row d c a :
  Transaction.is_annulled self = false →
  Transaction.reversal_of_id self = None →
  Transaction.pk self = Some k →
  Transaction.debit_account_id self = Some d →
  Transaction.credit_account_id self = Some c →
  Transaction.amount self = Some a →
  d ≠ c → 0 < a →
  fits_decimal a = true →
  Transaction.description_fits (Transaction.description self) = true →
  is_Some (accounts db !! d) → is_Some (accounts db !! c) →
  transactions db !! k = Some row →
  row_accepted row db = true →
  transactions db !! next_pk db = None →
  let n := next_pk db in
  let reversal := Transaction.mk (Some n) (Some c) (Some d) (Some a)
                    (Transaction.Storno (Some k)) false (Some k) false in
  annul (self, db)
  = (inr reversal,
     (Transaction.set_is_annulled true self,
      mkDB (accounts db)
           (<[n := reversal]> (<[k := Transaction.set_is_annulled true row]>
                                 (transactions db)))
           (S n)
           (locked db))).
Proof.
  intros Hna Hrev Hpk Hd Hc Ha Hne Hpos Hfa Hfd Hda Hca Hrow Hacc Hfree. simpl.
  assert (k ≠ next_pk db) as Hnk by (intros Heq; rewrite Heq in Hrow; congruence).
  rewrite annul_eq, Hna, Hrev. simpl.
  rewrite save_eq.
  rewrite full_clean_ok;
    [|simpl; rewrite Hd, Hc, Ha; by apply first_failure_valid
     |eapply clean_fields_ok; simpl; eauto; by rewrite Hrev].
  simpl. unfold Model_save. run. rewrite Hpk. simpl. rewrite Hrow. simpl.
  rewrite (row_accepted_flags row) by done. rewrite Hacc. simpl.
  rewrite Hpk, Hd, Hc, Ha. simpl.
  rewrite save_eq.
  rewrite full_clean_ok;
    [|simpl; apply first_failure_valid; [congruence|done]
     |eapply clean_fields_ok; simpl; eauto; by rewrite lookup_insert_eq].
  simpl. unfold Model_save, insert_row, amount_prepared. run. rewrite Hfa. simpl.
  rewrite lookup_insert_ne by done. rewrite Hfree.
  rewrite row_accepted_ok with (d := c) (c := d) (a := a);
    [|simpl; eauto..|simpl; by rewrite lookup_insert_eq].
  simpl. unfold set_transactions. simpl.
  replace (next_pk db `max` S (next_pk db))%nat with (S (next_pk db)) by lia.
  reflexivity.
Qed.

Lemma annul_succeeds_witness :
  annul (Scenario.original, Scenario.created.2.2)
  = (inr Scenario.reversal,
     (Transaction.set_is_annulled true Scenario.original,
      mkDB (accounts Scenario.created.2.2)
           (<[2%nat := Scenario.reversal]>
              (<[1%nat := Transaction.set_is_annulled true Scenario.original]>
                 (transactions Scenario.created.2.2)))
           3
           (locked Scenario.created.2.2))).
Proof.
  apply (annul_succeeds Scenario.original Scenario.created.2.2 1 Scenario.original
           1 2 10000); try reflexivity.
  - done.
  - eexists. reflexivity.
  - eexists. reflexivity.
Defined.

(** ** What a successful write stores *)

Lemma Model_save_update_fields f fs self db s' :
  Model_save (Some (f :: fs)) (self, db) = (inr tt, s') →
  ∃ k old,
    Transaction.pk self = Some k ∧ transactions db !! k = Some old
    ∧ s' = (self,
            set_transactions
              (<[k := foldl (Transaction.write_field self) old (f :: fs)]> (transactions db))
              (next_pk db) db).
Proof.
  unfold Model_save. run.
  destruct (Transaction.pk self) as [k|]; [|done].
  destruct (_ && negb (amount_prepared self)); [done|].
  destruct (transactions db !! k) as [old|] eqn:Hold; [|done].
  case_match; [done|]. intros [= <-]. exists k, old. done.
Qed.

Lemma Model_save_insert self db s' :
  Transaction.pk self = None →
  Model_save None (self, db) = (inr tt, s') →
  transactions db !! next_pk db = None
  ∧ s' = (Transaction.set_pk (Some (next_pk db)) self,
          set_transactions
            (<[next_pk db := Transaction.set_pk (Some (next_pk db)) self]> (transactions db))
            (next_pk db `max` S (next_pk db)) db).
Proof.
  intros Hpk. unfold Model_save, insert_row. run. rewrite Hpk. simpl.
  destruct (amount_prepared self); simpl; [|done].
  destruct (transactions db !! next_pk db) eqn:Hfree; simpl; [done|].
  case_match; simpl; [done|]. intros [= <-]. done.
Qed.

Lemma save_flag_success f self db s' :
  save (Some [f]) (self, db) = (inr tt, s') →
  ∃ k old,
    Transaction.pk self = Some k ∧ transactions db !! k = Some old
    ∧ s' = (self,
            set_transactions (<[k := Transaction.write_field self old f]> (transactions db))
                             (next_pk db) db).
Proof.
  rewrite save_eq.
  destruct (full_clean (self, db)).1 as [e|[]]; [done|].
  destruct (Model_save _ (self, db)) as [[e|[]] s1] eqn:Hm; [done|].
  apply Model_save_update_fields in Hm as (k & old & Hpk & Hold & ->).
  rewrite Hpk. simpl. intros [= <-]. eauto.
Qed.

(** ** The history of stored transactions *)

Lemma history_kept_refl db : history_kept db db.
Proof. intros k row Hk. exists row. done. Qed.

Lemma history_kept_tables db db' :
  transactions db' = transactions db → history_kept db db'.
Proof. intros Heq k row Hk. exists row. by rewrite Heq. Qed.

Lemma history_kept_trans db1 db2 db3 :
  history_kept db1 db2 → history_kept db2 db3 → history_kept db1 db3.
Proof.
  intros H12 H23 k row Hk.
  destruct (H12 k row Hk) as (row2 & Hk2 & ? & ? & ? & ? & ? & ? & ?).
  destruct (H23 k row2 Hk2) as (row3 & Hk3 & ? & ? & ? & ? & ? & ? & ?).
  exists row3. split_and!; try congruence; eauto.
Qed.

Lemma history_kept_insert_new db db' n row :
  transactions db !! n = None →
  transactions db' = <[n := row]> (transactions db) →
  history_kept db db'.
Proof.
  intros Hn Heq k old Hk. exists old. rewrite Heq.
  rewrite lookup_insert_ne by (intros ->; congruence). done.
Qed.

Lemma apply_balances_history self db :
  history_kept db (apply_balances (self, db)).2.2.
Proof.
  destruct (apply_balances_transactions self db) as [Heq|(k & row & Hk & Heq)].
  - by apply history_kept_tables.
  - intros j old Hj. rewrite Heq. rewrite lookup_insert. case_decide as Hkj.
    + subst j. rewrite Hk in Hj. injection Hj as <-.
      exists (Transaction.set_is_applied true row). done.
    + exists old. done.
Qed.

Lemma save_new_history self db :
  Transaction.pk self = None → history_kept db (save None (self, db)).2.2.
Proof.
  intros Hpk. rewrite save_eq.
  destruct (full_clean (self, db)).1 as [e|[]]; [apply history_kept_refl|].
  destruct (Model_save None (self, db)) as [[e|[]] s1] eqn:Hm.
  - pose proof (Model_save_cases None self db) as (_ & _ & Herr & _).
    rewrite Hm in Herr. simpl in Herr. rewrite Herr by eauto. apply history_kept_refl.
  - apply Model_save_insert in Hm as (Hfree & ->); [|done].
    assert (history_kept db
              (set_transactions
                 (<[next_pk db := Transaction.set_pk (Some (next_pk db)) self]>
                    (transactions db))
                 (next_pk db `max` S (next_pk db)) db)) as H1
      by (eapply history_kept_insert_new; [exact Hfree|reflexivity]).
    case_match; [|exact H1].
    eapply history_kept_trans; [exact H1|apply apply_balances_history].
Qed.

Lemma create_history {Self} (s : Self) d c a desc rev db :
  history_kept db (Transaction_objects_create d c a desc rev (s, db)).2.2.
Proof.
  unfold Transaction_objects_create. run.
  match goal with |- context [save None (?o, db)] =>
    pose proof (save_new_history o db eq_refl) as H;
    destruct (save None (o, db)) as [[e|[]] [o' db']]
  end; exact H.
Qed.

Lemma annul_history self db : history_kept db (annul (self, db)).2.2.
Proof.
  rewrite annul_eq.
  destruct (Transaction.is_annulled self); [apply history_kept_refl|].
  case_bool_decide; [apply history_kept_refl|].
  destruct (save (Some _) _) as [[e|[]] s1] eqn:Hs1;
    [by apply history_kept_tables|].
  apply save_flag_success in Hs1 as (k & old & Hpk & Hold & ->). simpl.
  assert (history_kept db
            (set_transactions
               (<[k := Transaction.set_is_annulled true old]> (transactions db))
               (next_pk db) db)) as H1.
  { intros j row Hj. simpl. rewrite lookup_insert. case_decide as Hkj.
    - subst j. rewrite Hold in Hj. injection Hj as <-.
      exists (Transaction.set_is_annulled true old). done.
    - exists row. done. }
  match goal with |- context [save None (?r, ?d1)] =>
    pose proof (save_new_history r d1 eq_refl) as H2;
    destruct (save None (r, d1)) as [[e|[]] [rev db2]]
  end; simpl in *; [by apply history_kept_tables|].
  eapply history_kept_trans; [exact H1|exact H2].
Qed.

Lemma make_annulled_loop_history objs count sent db :
  history_kept db (make_annulled_loop objs count sent db).2.
Proof.
  revert count sent db. induction objs as [|obj rest IH]; intros count sent db;
    [apply history_kept_refl|].
  simpl. pose proof (annul_history obj db) as Ha.
  destruct (annul (obj, db)) as [[e|rev] [self' db']]; simpl in *;
    (eapply history_kept_trans; [exact Ha|apply IH]).
Qed.

(** X9. [apply_balances], [Transaction.objects.create], [annul] and
    [make_annulled] never delete a stored transaction and never change its
    accounts, amount, description or [reversal_of]; of its flags,
    [is_applied] and [is_annulled] only ever go from false to true. *)
Theorem stored_history_is_kept :
  (∀ self db, history_kept db (apply_balances (self, db)).2.2)
  ∧ (∀ debit credit amount description reversal_of db,
       history_kept db
         (Transaction_objects_create debit credit amount description
            reversal_of (tt, db)).2.2)
  ∧ (∀ self db, history_kept db (annul (self, db)).2.2)
  ∧ (∀ queryset db, history_kept db (make_annulled queryset db).2).
Proof.
  split_and!.
  - apply apply_balances_history.
  - intros. apply create_history.
  - apply annul_history.
  - intros queryset db. rewrite make_annulled_db. apply make_annulled_loop_history.
Qed.

(** ** [annul]: failure and repetition *)

(** X8. When [annul] raises, the account table, the transaction table and
    the key counter are those before the call. *)
Theorem annul_all_or_nothing self db e :
  (annul (self, db)).1 = inl e →
  accounts (annul (self, db)).2.2 = accounts db
  ∧ transactions (annul (self, db)).2.2 = transactions db
  ∧ next_pk (annul (self, db)).2.2 = next_pk db.
Proof.
  rewrite annul_eq.
  destruct (Transaction.is_annulled self); [done|].
  case_bool_decide; [done|].
  destruct (save (Some _) _) as [[e1|[]] s1]; [done|].
  destruct (save None _) as [[e2|[]] s2]; done.
Qed.

Lemma annul_all_or_nothing_witness :
  accounts (annul (Scenario.unsaved, Scenario.ledger)).2.2 = accounts Scenario.ledger
  ∧ transactions (annul (Scenario.unsaved, Scenario.ledger)).2.2
    = transactions Scenario.ledger
  ∧ next_pk (annul (Scenario.unsaved, Scenario.ledger)).2.2 = next_pk Scenario.ledger.
Proof.
  apply (annul_all_or_nothing Scenario.unsaved Scenario.ledger ValueError).
  by vm_compute.
Defined.

Lemma annul_success_inv self db reversal s' :
  annul (self, db) = (inr reversal, s') →
  ∃ k old,
    Transaction.is_annulled self = false
    ∧ Transaction.reversal_of_id self = None
    ∧ Transaction.pk self = Some k
    ∧ transactions db !! k = Some old
    ∧ next_pk db ≠ k
    ∧ reversal = Transaction.mk (Some (next_pk db))
                   (Transaction.credit_account_id self)
                   (Transaction.debit_account_id self)
                   (Transaction.amount self)
                   (Transaction.Storno (Some k)) false (Some k) false
    ∧ s' = (Transaction.set_is_annulled true self,
            set_transactions
              (<[next_pk db := reversal]>
                 (<[k := Transaction.set_is_annulled true old]> (transactions db)))
              (next_pk db `max` S (next_pk db)) db).
Proof.
  rewrite annul_eq.
  destruct (Transaction.is_annulled self) eqn:Hna; [done|].
  case_bool_decide as Hrev; [done|].
  assert (Transaction.reversal_of_id self = None) as Hrev'
    by (destruct (Transaction.reversal_of_id self); [by destruct Hrev|done]).
  destruct (save (Some _) _) as [[e1|[]] s1] eqn:Hs1; [done|].
  apply save_flag_success in Hs1 as (k & old & Hpk & Hold & ->). simpl in *.
  rewrite Hpk. rewrite save_eq.
  destruct (full_clean _).1 as [e|[]]; [done|].
  destruct (Model_save None _) as [[e|[]] s2] eqn:Hm; [done|].
  apply Model_save_insert in Hm as (Hfree & ->); [|done]. simpl in *.
  intros [= <- <-]. exists k, old. split_and!; try done.
  intros Heq. rewrite Heq in Hfree. by rewrite lookup_insert_eq in Hfree.
Qed.

(** X10. After [annul] has succeeded it cannot be repeated: on the instance
    it was called on it raises AlreadyAnnulled, on the stored row of the
    original (whose [is_annulled] is now true) it raises AlreadyAnnulled,
    and on the reversal it returned it raises CannotAnnulAReversal; each
    time nothing changes. *)
Theorem annul_cannot_be_repeated self db reversal s' :
  annul (self, db) = (inr reversal, s') →
  annul s' = (inl (ValidationError [AlreadyAnnulled]), s')
  ∧ annul (reversal, s'.2)
    = (inl (ValidationError [CannotAnnulAReversal]), (reversal, s'.2))
  ∧ ∃ k row,
      Transaction.pk self = Some k
      ∧ transactions s'.2 !! k = Some row
      ∧ Transaction.is_annulled row = true
      ∧ annul (row, s'.2) = (inl (ValidationError [AlreadyAnnulled]), (row, s'.2)).
Proof.
  intros Hrun.
  destruct (annul_success_inv self db reversal s' Hrun)
    as (k & old & Hna & Hrev & Hpk & Hold & Hnk & -> & ->).
  split_and!.
  - by rewrite annul_eq.
  - by rewrite annul_eq.
  - exists k, (Transaction.set_is_annulled true old). simpl.
    rewrite lookup_insert_ne by done. rewrite lookup_insert_eq.
    split_and!; try done; by rewrite annul_eq.
Qed.

Lemma annul_cannot_be_repeated_witness :
  annul Scenario.annulled.2
  = (inl (ValidationError [AlreadyAnnulled]), Scenario.annulled.2)
  ∧ annul (Scenario.reversal, Scenario.annulled.2.2)
    = (inl (ValidationError [CannotAnnulAReversal]),
       (Scenario.reversal, Scenario.annulled.2.2))
  ∧ ∃ k row,
      Transaction.pk Scenario.original = Some k
      ∧ transactions Scenario.annulled.2.2 !! k = Some row
      ∧ Transaction.is_annulled row = true
      ∧ annul (row, Scenario.annulled.2.2)
        = (inl (ValidationError [AlreadyAnnulled]), (row, Scenario.annulled.2.2)).
Proof.
  apply (annul_cannot_be_repeated Scenario.original Scenario.created.2.2
           Scenario.reversal Scenario.annulled.2).
  by vm_compute.
Defined.

(** ** The admin action reports every object *)

Lemma make_annulled_loop_report objs count sent db :
  ∃ annulled errors,
    (make_annulled_loop objs count sent db).1 = ((count + annulled)%nat, sent ++ errors)
    ∧ forallb is_failure errors = true
    ∧ (annulled + length errors = length objs)%nat.
Proof.
  revert count sent db. induction objs as [|obj rest IH]; intros count sent db.
  { exists 0%nat, []. simpl. by rewrite Nat.add_0_r, app_nil_r. }
  simpl. destruct (annul (obj, db)) as [[e|rev] s'].
  - destruct (IH count (sent ++ [could_not_annul (Transaction.pk obj) e]) s'.2)
      as (n & errs & Heq & Hall & Hlen).
    exists n, (could_not_annul (Transaction.pk obj) e :: errs).
    rewrite Heq, <- app_assoc. simpl. split_and!; [done|done|lia].
  - destruct (IH (S count) sent s'.2) as (n & errs & Heq & Hall & Hlen).
    exists (S n), errs. rewrite Heq. split_and!; [|done|lia].
    f_equal. lia.
Qed.

Lemma make_annulled_loop_app pre rest count sent db :
  make_annulled_loop (pre ++ rest) count sent db
  = make_annulled_loop rest (make_annulled_loop pre count sent db).1.1
      (make_annulled_loop pre count sent db).1.2
      (make_annulled_loop pre count sent db).2.
Proof.
  revert count sent db. induction pre as [|obj pre IH]; intros count sent db; [done|].
  simpl. destruct (annul (obj, db)) as [[e|rev] s']; apply IH.
Qed.

Lemma make_annulled_messages queryset db :
  ∃ count,
    (make_annulled queryset db).1
    = (make_annulled_loop (omap (λ k, transactions db !! k) queryset) 0 [] db).1.2
      ++ (if bool_decide (count ≠ 0%nat) then [annulled_count count] else []).
Proof.
  unfold make_annulled.
  destruct (make_annulled_loop _ 0 [] db) as [[count sent] db']. simpl.
  exists count. case_bool_decide; [done|]. by rewrite app_nil_r.
Qed.

(** X11. The admin action accounts for every object of the queryset, and an
    error on one object does not stop the others.  Each object is handed to
    [annul], on the database the objects before it left: when that raises,
    the error is reported for that object; when it returns, the stored row
    of the object is annulled at the end.  The messages are the error
    messages in order, followed by one success message carrying the count
    when the count is not zero; the count and the errors add up to the
    number of objects. *)
Theorem make_annulled_reports_every_object queryset db :
  (∃ annulled errors,
     (make_annulled queryset db).1
     = errors ++ (if bool_decide (annulled ≠ 0%nat) then [annulled_count annulled] else [])
     ∧ forallb is_failure errors = true
     ∧ (annulled + length errors
        = length (omap (λ k, transactions db !! k) queryset))%nat)
  ∧ ∀ pre obj post,
      omap (λ k, transactions db !! k) queryset = pre ++ obj :: post →
      let before := (make_annulled_loop pre 0 [] db).2 in
      match (annul (obj, before)).1 with
      | inl e => could_not_annul (Transaction.pk obj) e ∈ (make_annulled queryset db).1
      | inr _ =>
          ∃ k row,
            Transaction.pk obj = Some k
            ∧ transactions (make_annulled queryset db).2 !! k = Some row
            ∧ Transaction.is_annulled row = true
      end.
Proof.
  split.
  - unfold make_annulled.
    destruct (make_annulled_loop_report
                (omap (λ k, transactions db !! k) queryset) 0 [] db)
      as (n & errs & Heq & Hall & Hlen).
    destruct (make_annulled_loop _ 0 [] db) as [[count sent] db']. simpl in *.
    injection Heq as -> ->. exists n, errs. split_and!; [|done|done].
    case_bool_decide; [done|]. by rewrite app_nil_r.
  - intros pre obj post Hobjs. simpl.
    destruct (make_annulled_messages queryset db) as (total & Hmsg).
    rewrite Hmsg, make_annulled_db, Hobjs, make_annulled_loop_app.
    destruct (make_annulled_loop pre 0 [] db) as [[count sent] before]. simpl.
    destruct (annul (obj, before)) as [[e|reversal] s'] eqn:Hrun; simpl.
    + destruct (make_annulled_loop_report post count
                  (sent ++ [could_not_annul (Transaction.pk obj) e]) s'.2)
        as (n & errs & -> & _). simpl.
      rewrite !elem_of_app, list_elem_of_singleton. tauto.
    + destruct (annul_success_inv obj before reversal s' Hrun)
        as (k & old & _ & _ & Hpk & Hold & Hnk & _ & ->). simpl.
      destruct (make_annulled_loop_history post (S count) sent
                  (set_transactions
                     (<[next_pk before := reversal]>
                        (<[k := Transaction.set_is_annulled true old]>
                           (transactions before)))
                     (next_pk before `max` S (next_pk before)) before)
                  k (Transaction.set_is_annulled true old))
        as (row & Hrow & _ & _ & _ & _ & _ & _ & Hann).
      { simpl. rewrite lookup_insert_ne by done. by rewrite lookup_insert_eq. }
      exists k, row. split_and!; [done|done|by apply Hann].
Qed.

Lemma make_annulled_reports_every_object_witness :
  let before := (make_annulled_loop [] 0 [] Scenario.created.2.2).2 in
  match (annul (Scenario.original, before)).1 with
  | inl e =>
      could_not_annul (Transaction.pk Scenario.original) e
      ∈ (make_annulled [1%nat] Scenario.created.2.2).1
  | inr _ =>
      ∃ k row,
        Transaction.pk Scenario.original = Some k
        ∧ transactions (make_annulled [1%nat] Scenario.created.2.2).2 !! k = Some row
        ∧ Transaction.is_annulled row = true
  end.
Proof.
  apply (proj2 (make_annulled_reports_every_object [1%nat] Scenario.created.2.2)
           [] Scenario.original []).
  by vm_compute.
Defined.

(** ** The form *)

Lemma cleaned_account_None k db :
  cleaned_account k db = None ↔ k = None ∨ ∃ k', k = Some k' ∧ accounts db !! k' = None.
Proof.
  unfold cleaned_account. destruct k as [k|]; simpl; [|tauto].
  destruct (accounts db !! k) eqn:Hk; simpl; split; try done.
  - intros [?|(k' & [= <-] & ?)]; congruence.
  - intros _. right. eauto.
Qed.








(** ** The generated account number *)

Lemma digit_char_shape d :
  ∃ ch, digit_char d = String ch EmptyString
        ∧ ch ∈ String.list_ascii_of_string "0123456789".
Proof.
  unfold digit_char.
  destruct (d `mod` 10)%nat as [|[|[|[|[|[|[|[|[|n]]]]]]]]];
    eexists; (split; [reflexivity|]); simpl; rewrite !elem_of_cons; tauto.
Qed.

Lemma digits_string (f : nat → nat) (l : list nat) :
  let s := foldr (λ j s, digit_char (f j) +:+ s) "" l in
  String.length s = length l ∧ all_digits s = true.
Proof.
  simpl. induction l as [|j l [IHlen IHdig]]; [done|]. simpl.
  destruct (digit_char_shape (f j)) as (ch & -> & Hch).
  split; [simpl; f_equal; exact IHlen|].
  unfold all_digits in *.
  change (String.list_ascii_of_string (String ch "" +:+ ?s))
    with (ch :: String.list_ascii_of_string s).
  cbn [forallb]. apply andb_true_iff. split; [by apply bool_decide_eq_true|exact IHdig].
Qed.

Lemma draw_shape rnd i :
  String.length (draw rnd i) = 10%nat ∧ all_digits (draw rnd i) = true.
Proof. unfold draw. apply (digits_string (λ j, rnd (10 * i + j)%nat) (seq 0 10)). Qed.

Lemma generate_from_result fuel rnd i db num :
  generate_from fuel rnd i db = Some num →
  ∃ j, num = draw rnd j ∧ number_exists num db = false.
Proof.
  revert i. induction fuel as [|fuel IH]; intros i; simpl; [done|].
  destruct (number_exists (draw rnd i) db) eqn:Hex; simpl.
  - apply IH.
  - intros [= <-]. eauto.
Qed.

(** X13. A number that [_generate_account_number] returns is a string of
    ten decimal digits that no stored account has. *)
Theorem generated_number_is_fresh fuel rnd db num :
  _generate_account_number fuel rnd db = Some num →
  String.length num = 10%nat
  ∧ all_digits num = true
  ∧ ∀ k row, accounts db !! k = Some row → Account.number row ≠ num.
Proof.
  unfold _generate_account_number. intros Hgen.
  apply generate_from_result in Hgen as (j & -> & Hfree).
  destruct (draw_shape rnd j) as [Hlen Hdig]. split_and!; [done|done|].
  intros k row Hrow Heq. unfold number_exists in Hfree.
  apply bool_decide_eq_false in Hfree. apply Hfree. eauto.
Qed.

Lemma generated_number_is_fresh_witness :
  String.length "1111111111" = 10%nat
  ∧ all_digits "1111111111" = true
  ∧ ∀ k row, accounts Scenario.taken !! k = Some row → Account.number row ≠ "1111111111".
Proof.
  apply (generated_number_is_fresh 2 Scenario.retry Scenario.taken "1111111111").
  by vm_compute.
Defined.

(** ** Saving again *)

(** X14. Only the first save of an ordinary transaction can post: a [save]
    of an instance that has a primary key already, or that is a reversal,
    changes no account, takes no lock and leaves [is_applied] of the
    instance as it was, whatever [update_fields] is and whether it
    succeeds or raises. *)
Theorem resave_posts_nothing update_fields self db :
  Transaction.pk self ≠ None ∨ Transaction.reversal_of_id self ≠ None →
  accounts (save update_fields (self, db)).2.2 = accounts db
  ∧ locked (save update_fields (self, db)).2.2 = locked db
  ∧ Transaction.is_applied (save update_fields (self, db)).2.1
    = Transaction.is_applied self.
Proof.
  intros Hno. split; [by apply save_accounts_no_apply|].
  rewrite save_eq.
  destruct (full_clean (self, db)).1 as [e|[]]; simpl; [done|].
  pose proof (Model_save_cases update_fields self db) as (_ & Hlock & _ & Hself & _).
  pose proof (Model_save_reversal_of update_fields self db) as Hrev.
  assert (Transaction.is_applied (Model_save update_fields (self, db)).2.1
          = Transaction.is_applied self) as Happ
    by (destruct Hself as [->|(_ & _ & k & ->)]; done).
  destruct (Model_save update_fields (self, db)) as [[e|[]] [self1 db1]];
    simpl in *; [done|].
  rewrite Hrev.
  destruct Hno as [Hno|Hno];
    [rewrite (bool_decide_eq_false_2 _ Hno)
    |rewrite (bool_decide_eq_false_2 (Transaction.reversal_of_id self = None) Hno),
       andb_false_r]; done.
Qed.

Lemma resave_posts_nothing_witness :
  accounts (save None (Scenario.pending, Scenario.ledger_pending)).2.2
  = accounts Scenario.ledger_pending
  ∧ locked (save None (Scenario.pending, Scenario.ledger_pending)).2.2
    = locked Scenario.ledger_pending
  ∧ Transaction.is_applied (save None (Scenario.pending, Scenario.ledger_pending)).2.1
    = Transaction.is_applied Scenario.pending.
Proof.
  apply (resave_posts_nothing None Scenario.pending Scenario.ledger_pending).
  left. done.
Defined.

(** ** Creation is all or nothing *)

Lemma check_reference_nil {V} field k (table : gmap nat V) :
  check_reference field (Some k) table = [] → is_Some (table !! k).
Proof. unfold check_reference. destruct (table !! k); [eauto|done]. Qed.

Lemma full_clean_passes_fields self db :
  (full_clean (self, db)).1 = inr tt → clean_fields self db = [].
Proof.
  rewrite full_clean_eq. simpl. intros Hok.
  destruct (clean_fields self db) as [|m ms]; [done|discriminate].
Qed.

Lemma clean_fields_nil self db d c a :
  clean_fields self db = [] →
  Transaction.debit_account_id self = Some d →
  Transaction.credit_account_id self = Some c →
  Transaction.amount self = Some a →
  is_Some (accounts db !! d) ∧ is_Some (accounts db !! c)
  ∧ fits_decimal a = true
  ∧ Transaction.description_fits (Transaction.description self) = true.
Proof.
  unfold clean_fields. intros Hfields Hd Hc Ha. rewrite Hd, Hc, Ha in Hfields.
  apply app_eq_nil in Hfields as [H1 Hfields].
  apply app_eq_nil in Hfields as [H2 Hfields].
  apply app_eq_nil in Hfields as [H3 Hfields].
  apply app_eq_nil in Hfields as [H4 _].
  split_and!; [by eapply check_reference_nil..| |].
  - simpl in H3. by destruct (fits_decimal a).
  - by destruct (Transaction.description_fits _).
Qed.

(** X15. What [Transaction.objects.create] of an ordinary transaction can
    leave behind.  When it returns, the returned instance is applied, it is
    the row stored under the next key, and both legs are posted.  When it
    raises [decimal.InvalidOperation], a new balance did not fit its
    column: the balances are as before, but the row is stored under the
    next key, unapplied, since [save] inserts it before [apply_balances]
    starts its own atomic block.  When it raises anything else (the record
    is invalid, the key is taken) the database is exactly as before. *)
Theorem create_outcomes debit credit amount description db :
  let out := Transaction_objects_create debit credit amount description None (tt, db) in
  let n := next_pk db in
  match out.1 with
  | inr created =>
      Transaction.is_applied created = true
      ∧ Transaction.pk created = Some n
      ∧ transactions out.2.2 = <[n := created]> (transactions db)
      ∧ ∃ d c amt da ca,
          debit = Some d ∧ credit = Some c ∧ amount = Some amt
          ∧ accounts db !! d = Some da ∧ accounts db !! c = Some ca
          ∧ accounts out.2.2 = post_accounts d c amt da ca (accounts db)
  | inl InvalidOperation =>
      accounts out.2.2 = accounts db
      ∧ transactions db !! n = None
      ∧ transactions out.2.2
        = <[n := Transaction.mk (Some n) debit credit amount description
                   false None false]> (transactions db)
      ∧ ∃ d c amt da ca,
          debit = Some d ∧ credit = Some c ∧ amount = Some amt
          ∧ accounts db !! d = Some da ∧ accounts db !! c = Some ca
          ∧ (fits_decimal
               (Account.balance da + computeDelta (Account.type da) Debit amt) = false
             ∨ fits_decimal
                 (Account.balance ca + computeDelta (Account.type ca) Credit amt) = false)
  | inl _ => out.2 = (tt, db)
  end.
Proof.
  simpl.
  set (obj := Transaction.mk None debit credit amount description false None false).
  destruct (full_clean (obj, db)).1 as [e|[]] eqn:Hclean.
  { unfold Transaction_objects_create. run. fold obj. rewrite save_eq, Hclean. simpl.
    revert Hclean. rewrite full_clean_eq. simpl. case_match; [done|]. by intros [= <-]. }
  pose proof (full_clean_passes _ _ Hclean) as (d & c & a & Hd & Hc & Hne & Ha & Hpos).
  simpl in Hd, Hc, Ha. subst debit credit amount.
  destruct (clean_fields_nil obj db d c a (full_clean_passes_fields _ _ Hclean)
              eq_refl eq_refl eq_refl) as ([da Hda] & [ca Hca] & Hfa & Hfd).
  simpl in Hfd.
  destruct (transactions db !! next_pk db) as [row|] eqn:Hfree.
  { unfold Transaction_objects_create. run. fold obj. rewrite save_eq, Hclean.
    unfold Model_save, insert_row, amount_prepared. run. rewrite Hfa. simpl.
    by rewrite Hfree. }
  destruct (fits_decimal (Account.balance da + computeDelta (Account.type da) Debit a))
    eqn:Hfda;
  [destruct (fits_decimal (Account.balance ca + computeDelta (Account.type ca) Credit a))
     eqn:Hfca|].
  - rewrite (create_runs d c a description db da ca) by done. simpl.
    split_and!; try done. exists d, c, a, da, ca. done.
  - unfold Transaction_objects_create. run. fold obj. rewrite save_eq, Hclean.
    unfold Model_save, insert_row, amount_prepared. run. rewrite Hfa. simpl.
    rewrite Hfree.
    rewrite row_accepted_ok with (d := d) (c := c) (a := a) by (simpl; eauto).
    simpl. rewrite apply_balances_eq. simpl. rewrite Hda, Hca, Hfda, Hfca. simpl.
    split_and!; try done. exists d, c, a, da, ca. split_and!; try done. by right.
  - unfold Transaction_objects_create. run. fold obj. rewrite save_eq, Hclean.
    unfold Model_save, insert_row, amount_prepared. run. rewrite Hfa. simpl.
    rewrite Hfree.
    rewrite row_accepted_ok with (d := d) (c := c) (a := a) by (simpl; eauto).
    simpl. rewrite apply_balances_eq. simpl. rewrite Hda, Hca, Hfda. simpl.
    split_and!; try done. exists d, c, a, da, ca. split_and!; try done. by left.
Qed.

(** The second case occurs: on the ledger whose Asset account holds
    9999999999999990.00, creating a transaction of 10.00 that debits it
    raises, and leaves the row stored and unapplied. *)
Lemma create_overflow_leaves_unapplied_row :
  let out := Transaction_objects_create (Some 1%nat) (Some 2%nat) (Some 1000)
               (Transaction.Text "") None (tt, Scenario.ledger_full) in
  out.1 = inl InvalidOperation
  ∧ accounts out.2.2 = accounts Scenario.ledger_full
  ∧ Transaction.is_applied <$> transactions out.2.2 !! 1%nat = Some false.
Proof. by vm_compute. Qed.

(** ** Accounts change in their balances only *)

Lemma same_but_balance_refl a : same_but_balance a a.
Proof. by unfold same_but_balance. Qed.

Lemma accounts_kept_refl table : accounts_kept table table.
Proof. intros k. destruct (table !! k); [apply same_but_balance_refl|done]. Qed.

Lemma post_accounts_kept d c amt da ca table :
  table !! d = Some da → table !! c = Some ca →
  accounts_kept table (post_accounts d c amt da ca table).
Proof.
  intros Hda Hca k. unfold post_accounts.
  rewrite !lookup_insert.
  destruct (decide (c = k)) as [<-|Hck].
  - rewrite Hca. destruct (decide (d = c)) as [->|Hdc].
    + rewrite Hda in Hca. injection Hca as <-. by unfold same_but_balance.
    + by unfold same_but_balance.
  - destruct (decide (d = k)) as [<-|Hdk].
    + rewrite Hda. by unfold same_but_balance.
    + destruct (table !! k); [apply same_but_balance_refl|done].
Qed.

Lemma posted_by_kept self before after :
  posted_by self before after → accounts_kept before after.
Proof.
  intros [->|(d & c & amt & da & ca & _ & _ & _ & Hda & Hca & ->)];
    [apply accounts_kept_refl|].
  by apply post_accounts_kept.
Qed.

Lemma apply_balances_other_accounts self db k :
  Transaction.debit_account_id self ≠ Some k →
  Transaction.credit_account_id self ≠ Some k →
  accounts (apply_balances (self, db)).2.2 !! k = accounts db !! k.
Proof.
  intros Hd Hc.
  destruct (Transaction.is_applied self) eqn:Hna.
  { by rewrite apply_balances_applied. }
  destruct (apply_balances (self, db)) as [[e|[]] s'] eqn:Hrun.
  - pose proof (apply_balances_tables self db) as Ht. rewrite Hrun in Ht.
    simpl in *. destruct Ht as (-> & _); eauto.
  - destruct (apply_balances_success self db s' Hna Hrun)
      as (d & c & amt & da & ca & k' & row & Hd' & Hc' & _ & _ & _ & _ & _ & _ & ->).
    simpl. apply post_accounts_other; congruence.
Qed.

(** X16. No operation adds or removes an account or changes an account's
    number, name, type or group: [apply_balances], [save],
    [Transaction.objects.create], [annul] and [make_annulled] leave every
    account under its key, changed at most in its balance; and
    [apply_balances] leaves every account other than the two of its
    transaction untouched. *)
Theorem accounts_change_in_balance_only :
  (∀ self db,
     accounts_kept (accounts db) (accounts (apply_balances (self, db)).2.2)
     ∧ ∀ k, Transaction.debit_account_id self ≠ Some k →
            Transaction.credit_account_id self ≠ Some k →
            accounts (apply_balances (self, db)).2.2 !! k = accounts db !! k)
  ∧ (∀ update_fields self db,
       accounts_kept (accounts db) (accounts (save update_fields (self, db)).2.2))
  ∧ (∀ debit credit amount description reversal_of db,
       accounts_kept (accounts db)
         (accounts (Transaction_objects_create debit credit amount description
                      reversal_of (tt, db)).2.2))
  ∧ (∀ self db, accounts_kept (accounts db) (accounts (annul (self, db)).2.2))
  ∧ (∀ queryset db,
       accounts_kept (accounts db) (accounts (make_annulled queryset db).2)).
Proof.
  split_and!.
  - intros self db. split.
    + eapply posted_by_kept, apply_balances_posted.
    + intros k. apply apply_balances_other_accounts.
  - intros uf self db. eapply posted_by_kept, save_accounts.
  - intros d c a desc rev db. unfold Transaction_objects_create. run.
    match goal with |- context [save None (?o, db)] =>
      pose proof (save_accounts None o db) as H;
      destruct (save None (o, db)) as [[e|[]] [o' db']]
    end; by eapply posted_by_kept.
  - intros self db. rewrite annul_accounts. apply accounts_kept_refl.
  - intros queryset db. rewrite make_annulled_db, make_annulled_loop_accounts.
    apply accounts_kept_refl.
Qed.

Lemma accounts_change_in_balance_only_witness :
  accounts (apply_balances (Scenario.pending, Scenario.ledger_three)).2.2 !! 3%nat
  = accounts Scenario.ledger_three !! 3%nat.
Proof.
  apply (proj2 (proj1 accounts_change_in_balance_only Scenario.pending
                  Scenario.ledger_three) 3%nat); done.
Defined.
